(** * scoreboard: a shallow embedding of [scoreboard.py]

    The module scrapes NBA schedules, normalises team names and keeps a
    two-level cache [season -> team -> games].  Python values are modelled
    as follows: integers as [Z], strings as [string] (ASCII), booleans as
    [bool], a raised exception as the [Raise] alternative of [result], and
    a [dict] as an insertion-ordered association list, since the reader
    iterates over the keys of the loaded cache. *)

From Stdlib Require Import ZArith List String Ascii Bool Lia.
From Stdlib Require Import Sorting.Sorted Sorting.Permutation.
From Stdlib Require Import DecimalString.
From Stdlib Require DecimalPos DecimalZ.
Import ListNotations.

Local Open Scope string_scope.
Local Open Scope Z_scope.

(** ** Exceptions and fallible computations *)

Inductive exn : Type :=
| ValueError
| AttributeError
| IndexError
| TypeError
| KeyError
| SystemExit
| ConnectionError.

Inductive result (A : Type) : Type :=
| Ok (a : A)
| Raise (e : exn).

Arguments Ok {A} a.
Arguments Raise {A} e.

Definition bind {A B : Type} (r : result A) (k : A -> result B) : result B :=
  match r with
  | Ok a => k a
  | Raise e => Raise e
  end.

Notation "x <- r ;; k" := (bind r (fun x => k))
  (at level 61, r at next level, right associativity).

(** ** Game records *)

(** [datetime.date]: a calendar date. *)
Record py_date : Type := mkdate { year : Z; month : Z; day : Z }.

(** The named tuple [Game]. *)
Record Game : Type := mkGame {
  date : py_date;
  team : string;
  opp : string;
  home : bool;
  won : bool;
  score : list Z;
  home_team : string;
  away_team : string;
  team_score : Z;
  opp_score : Z;
  home_score : Z;
  away_score : Z;
  winner : string;
  loser : string
}.

(** [one_game]: the tuple unpacking [score_winner, score_loser = score]
    raises [ValueError] unless [score] has exactly two elements. *)
Definition one_game (date : py_date) (team opp : string) (home won : bool)
    (score : list Z) : result Game :=
  let home_team := if home then team else opp in
  let away_team := if home then opp else team in
  match score with
  | [score_winner; score_loser] =>
      let team_score := if won then score_winner else score_loser in
      let opp_score := if won then score_loser else score_winner in
      let home_score := if home then team_score else opp_score in
      let away_score := if home then opp_score else team_score in
      let winner := if won then team else opp in
      let loser := if won then opp else team in
      Ok (mkGame date team opp home won score home_team away_team
            team_score opp_score home_score away_score winner loser)
  | _ => Raise ValueError
  end.

(** ** Strings *)

Definition is_space (c : ascii) : bool :=
  let n := N_of_ascii c in
  ((9 <=? n) && (n <=? 13) || (28 <=? n) && (n <=? 32))%N.

Definition is_digit (c : ascii) : bool :=
  let n := N_of_ascii c in ((48 <=? n) && (n <=? 57))%N.

Definition is_upper (c : ascii) : bool :=
  let n := N_of_ascii c in ((65 <=? n) && (n <=? 90))%N.

Definition is_lower (c : ascii) : bool :=
  let n := N_of_ascii c in ((97 <=? n) && (n <=? 122))%N.

(** A word character of the regular expression class [\w]. *)
Definition is_word (c : ascii) : bool :=
  is_digit c || is_upper c || is_lower c || Ascii.eqb c "_".

Definition lower_char (c : ascii) : ascii :=
  if is_upper c then ascii_of_N (N_of_ascii c + 32) else c.

Fixpoint map_string (f : ascii -> ascii) (s : string) : string :=
  match s with
  | EmptyString => EmptyString
  | String c s' => String (f c) (map_string f s')
  end.

(** [str.lower] *)
Definition lower (s : string) : string := map_string lower_char s.

Fixpoint lstrip (s : string) : string :=
  match s with
  | String c s' => if is_space c then lstrip s' else s
  | EmptyString => EmptyString
  end.

Fixpoint rstrip (s : string) : string :=
  match s with
  | EmptyString => EmptyString
  | String c s' =>
      let r := rstrip s' in
      if is_space c && String.eqb r "" then EmptyString else String c r
  end.

(** [str.strip] *)
Definition strip (s : string) : string := rstrip (lstrip s).

(** [str.split(sep)] for a one-character separator class: every separator
    ends a field, empty fields are kept. *)
Fixpoint split_by (p : ascii -> bool) (s : string) : list string :=
  match s with
  | EmptyString => [EmptyString]
  | String c s' =>
      if p c then EmptyString :: split_by p s'
      else match split_by p s' with
           | w :: ws => String c w :: ws
           | [] => [String c EmptyString]
           end
  end.

(** [str.split()]: fields between runs of whitespace, none of them empty. *)
Definition split_ws (s : string) : list string :=
  filter (fun w => negb (String.eqb w "")) (split_by is_space s).

Definition digit_val (c : ascii) : option Z :=
  if is_digit c then Some (Z.of_N (N_of_ascii c) - 48) else None.

(** Digits of an integer literal, single underscores allowed between them. *)
Fixpoint int_digits (s : string) (acc : Z) : option Z :=
  match s with
  | EmptyString => None
  | String c s' =>
      match digit_val c with
      | None => None
      | Some d =>
          let acc' := 10 * acc + d in
          match s' with
          | EmptyString => Some acc'
          | String "_"%char s'' => int_digits s'' acc'
          | _ => int_digits s' acc'
          end
      end
  end.

(** [int(s)] on a string. *)
Definition py_int (s : string) : result Z :=
  let t := strip s in
  let r := match t with
           | String "-"%char u => option_map Z.opp (int_digits u 0)
           | String "+"%char u => int_digits u 0
           | _ => int_digits t 0
           end in
  match r with
  | Some z => Ok z
  | None => Raise ValueError
  end.

(** [str(n)] and ['{}'.format(n)] on an integer. *)
Definition py_str (n : Z) : string := NilZero.string_of_int (Z.to_int n).

Fixpoint map_result {A B : Type} (f : A -> result B) (l : list A)
    : result (list B) :=
  match l with
  | [] => Ok []
  | a :: l' => b <- f a ;; bs <- map_result f l' ;; Ok (b :: bs)
  end.


(** ** Dates: the two uses of [datetime.datetime.strptime] *)

Definition month_abbrs : list string :=
  ["jan"; "feb"; "mar"; "apr"; "may"; "jun";
   "jul"; "aug"; "sep"; "oct"; "nov"; "dec"].

Definition weekday_abbrs : list string :=
  ["mon"; "tue"; "wed"; "thu"; "fri"; "sat"; "sun"].

(** Position (from [n]) of [w] in a list of names. *)
Fixpoint index_from (n : Z) (w : string) (names : list string) : option Z :=
  match names with
  | [] => None
  | x :: names' =>
      if String.eqb x w then Some n else index_from (n + 1) w names'
  end.

(** [strptime(month, '%b').month]: the whole string is a month abbreviation,
    letter case ignored. *)
Definition strptime_b (s : string) : result Z :=
  match index_from 1 (lower s) month_abbrs with
  | Some m => Ok m
  | None => Raise ValueError
  end.

(** The first three characters of a string and what follows them. *)
Definition take3 (s : string) : option (string * string) :=
  match s with
  | String a (String b (String c r)) =>
      Some (String a (String b (String c EmptyString)), r)
  | _ => None
  end.

(** One or more whitespace characters, as [\s+] matches them. *)
Definition skip_ws1 (s : string) : option string :=
  match s with
  | String c r => if is_space c then Some (lstrip r) else None
  | EmptyString => None
  end.

Definition expect_comma (s : string) : option string :=
  match s with
  | String ","%char r => Some r
  | _ => None
  end.

(** The directive [%d]: one or two digits (or a space and a digit) that
    denote 1 to 31. *)
Definition parse_day (s : string) : option (Z * string) :=
  let in_range (d : Z) (r : string) :=
    if (1 <=? d) && (d <=? 31) then Some (d, r) else None in
  match s with
  | String a (String b r) =>
      match digit_val a, digit_val b with
      | Some x, Some y =>
          match in_range (10 * x + y) r with
          | Some res => Some res
          | None => in_range x (String b r)
          end
      | Some x, None => in_range x (String b r)
      | None, Some y => if Ascii.eqb a " " then in_range y r else None
      | None, None => None
      end
  | String a EmptyString =>
      match digit_val a with
      | Some x => in_range x EmptyString
      | None => None
      end
  | EmptyString => None
  end.

(** The directive [%Y] followed by the end of the string: exactly four
    digits. *)
Definition parse_year_end (s : string) : option Z :=
  match s with
  | String a (String b (String c (String d EmptyString))) =>
      match digit_val a, digit_val b, digit_val c, digit_val d with
      | Some w, Some x, Some y, Some z =>
          Some (1000 * w + 100 * x + 10 * y + z)
      | _, _, _, _ => None
      end
  | _ => None
  end.

Definition is_leap (y : Z) : bool :=
  ((y mod 4 =? 0) && negb (y mod 100 =? 0)) || (y mod 400 =? 0).

Definition days_in_month (y m : Z) : Z :=
  if m =? 2 then (if is_leap y then 29 else 28)
  else if (m =? 4) || (m =? 6) || (m =? 9) || (m =? 11) then 30
  else 31.

Definition opt_bind {A B : Type} (o : option A) (k : A -> option B)
    : option B :=
  match o with
  | Some a => k a
  | None => None
  end.

(** [strptime(s, '%a, %b %d, %Y')] as a (year, month, day) triple.  The
    weekday name is matched and otherwise ignored; a day the month does not
    have, and a year below 1, are rejected when the date is built. *)
Definition strptime_abdY (s : string) : result py_date :=
  let parsed :=
    opt_bind (take3 s) (fun '(wd, r1) =>
    opt_bind (index_from 0 (lower wd) weekday_abbrs) (fun _ =>
    opt_bind (expect_comma r1) (fun r2 =>
    opt_bind (skip_ws1 r2) (fun r3 =>
    opt_bind (take3 r3) (fun '(mo, r4) =>
    opt_bind (index_from 1 (lower mo) month_abbrs) (fun m =>
    opt_bind (skip_ws1 r4) (fun r5 =>
    opt_bind (parse_day r5) (fun '(d, r6) =>
    opt_bind (expect_comma r6) (fun r7 =>
    opt_bind (skip_ws1 r7) (fun r8 =>
    opt_bind (parse_year_end r8) (fun y =>
    if (1 <=? y) && (d <=? days_in_month y m)
    then Some (mkdate y m d) else None))))))))))) in
  match parsed with
  | Some d => Ok d
  | None => Raise ValueError
  end.


(** ** The alias table *)

(** A row of [team_aliases]: standard, ESPN and ESPN city name. *)
Record alias_row : Type := mkrow { std : string; espn : string; city : string }.

Definition row_items (r : alias_row) : list string := [std r; espn r; city r].

Definition team_aliases : list alias_row :=
  [ mkrow "ATL" "atl" "Atlanta";
    mkrow "BKN" "bkn" "Brooklyn";
    mkrow "BOS" "bos" "Boston";
    mkrow "CHA" "cha" "Charlotte";
    mkrow "CHI" "chi" "Chicago";
    mkrow "CLE" "cle" "Cleveland";
    mkrow "DAL" "dal" "Dallas";
    mkrow "DEN" "den" "Denver";
    mkrow "DET" "det" "Detroit";
    mkrow "GSW" "gs" "Golden State";
    mkrow "HOU" "hou" "Houston";
    mkrow "IND" "ind" "Indiana";
    mkrow "LAC" "lac" "LA";
    mkrow "LAL" "lal" "Los Angeles";
    mkrow "MEM" "mem" "Memphis";
    mkrow "MIA" "mia" "Miami";
    mkrow "MIL" "mil" "Milwuakee";
    mkrow "MIN" "min" "Minnesota";
    mkrow "NOP" "no" "New Orleans";
    mkrow "NYK" "ny" "NY Knicks";
    mkrow "OKC" "okc" "Oklahoma City";
    mkrow "ORL" "orl" "Orlando";
    mkrow "PHI" "phi" "Philadelphia";
    mkrow "PHX" "phx" "Phoenix";
    mkrow "POR" "por" "Portland";
    mkrow "SAC" "sac" "Sacramento";
    mkrow "SAS" "sa" "San Antonio";
    mkrow "TOR" "tor" "Toronto";
    mkrow "UTA" "utah" "Utah";
    mkrow "WAS" "wsh" "Washington" ].

(** [teams = [abbr for abbr, *other in team_aliases]] *)
Definition teams : list string := map std team_aliases.

(** [name in row] *)
Definition in_row (name : string) (r : alias_row) : bool :=
  existsb (String.eqb name) (row_items r).

(** The loop of [abbr]: the abbreviation of the first row that holds
    [name]; [None] is Python's [None], returned when the loop runs out. *)
Fixpoint abbr_lookup (name : string) (use_espn : bool)
    (rows : list alias_row) : option string :=
  match rows with
  | [] => None
  | r :: rows' =>
      if in_row name r then Some (if use_espn then espn r else std r)
      else abbr_lookup name use_espn rows'
  end.

(** [utils.full_process] of fuzzywuzzy: characters outside [\w] become
    spaces, then lower case, then [strip]. *)
Definition full_process (s : string) : string :=
  strip (lower (map_string (fun c => if is_word c then c else " "%char) s)).

(** The candidate pool [choices]: the rows of [team_aliases] chained. *)
Definition alias_pool : list string := flat_map row_items team_aliases.

(** [abbr(team, espn)] over the matcher [process.extractOne], which gives a
    pair (name, confidence) or [None]; unpacking a [None] raises
    [TypeError]. *)
Definition abbr_with (extract : string -> list string -> option (string * Z))
    (team : string) (use_espn : bool) : result (option string) :=
  let choices := alias_pool in
  match extract team choices with
  | None => Raise TypeError
  | Some (name, confidence) => Ok (abbr_lookup name use_espn team_aliases)
  end.

Section Resolver.

(** The scorer of fuzzywuzzy ([fuzz.WRatio] on processed strings), which
    is not part of this repository. *)
Variable scorer : string -> string -> Z.

(** [max(best_list, key=lambda i: i[1])]: the first pair with the highest
    score. *)
Fixpoint first_max (best : string * Z) (l : list (string * Z))
    : string * Z :=
  match l with
  | [] => best
  | x :: l' => first_max (if snd best <? snd x then x else best) l'
  end.

(** [process.extractOne(query, choices)] with the default processor and
    score cutoff 0; [None] when no choice is left. *)
Definition extractOne (query : string) (choices : list string)
    : option (string * Z) :=
  let processed_query := full_process query in
  let scored :=
    map (fun c => (c, scorer processed_query (full_process c))) choices in
  match filter (fun x => 0 <=? snd x) scored with
  | [] => None
  | x :: l => Some (first_max x l)
  end.

(** [abbr] as the module runs it, on fuzzywuzzy's matcher. *)
Definition abbr (team : string) (use_espn : bool) : result (option string) :=
  abbr_with extractOne team use_espn.

End Resolver.

(** A scorer for test runs: 100 on equal strings, 0 otherwise. *)
Definition exact_scorer (a b : string) : Z :=
  if String.eqb a b then 100 else 0.


(** ** The schedule page *)

(** A [td] cell as the fetcher reads it: its text, the texts of the [a]
    elements in it, and the text of its first [li] and [span], if any. *)
Record td : Type := mktd {
  td_text : string;
  td_a : list string;
  td_li : option string;
  td_span : option string
}.

(** A [tr] row: the [td] cells found in it. *)
Definition tr : Type := list td.

(** A parsed page: the [tr] rows of its first table, [None] without one. *)
Definition page : Type := option (list tr).

(** [x.text] where [x] may be [None]. *)
Definition text_of (x : option string) : result string :=
  match x with
  | Some s => Ok s
  | None => Raise AttributeError
  end.

(** [l[1]] *)
Definition item1 {A : Type} (l : list A) : result A :=
  match l with
  | _ :: x :: _ => Ok x
  | _ => Raise IndexError
  end.

(** The exceptions the row loop of [fetch_games] swallows. *)
Definition caught (e : exn) : bool :=
  match e with
  | ValueError | AttributeError => true
  | _ => false
  end.

Definition season_year (season month_number : Z) : Z :=
  if month_number <? 7 then season else season - 1.

Definition BASEURL (name : option string) (season : Z) : string :=
  "http://espn.go.com/nba/team/schedule/_/name/"
  ++ match name with Some s => s | None => "None" end
  ++ "/year/" ++ py_str season.

Section Fetcher.

Variable scorer : string -> string -> Z.

(** [BeautifulSoup(requests.get(url).text, 'lxml').table] with its rows. *)
Variable remote : string -> result page.

(** [abbr] where it must give a string; the resolver gives no [None]
    (lemma [abbr_not_none]), a [None] would end in [TypeError] when
    the log line is formatted. *)
Definition abbr_str (name : string) : result string :=
  r <- abbr scorer name false ;;
  match r with
  | Some s => Ok s
  | None => Raise TypeError
  end.

(** The row loop's body up to [team, opp = map(abbr, [team, opp])]: the
    date and the two resolved names. *)
Definition row_head (season : Z) (team : string) (row : tr)
    : result (py_date * string * string) :=
  match row with
  | date :: opponent :: result :: other =>
      match split_ws (td_text date) with
      | [weekday; month; day] =>
          month_number <- strptime_b month ;;
          let year := season_year season month_number in
          let date_with_year := td_text date ++ ", " ++ py_str year in
          d <- strptime_abdY date_with_year ;;
          opp <- item1 (td_a opponent) ;;
          team' <- abbr_str team ;;
          opp' <- abbr_str opp ;;
          Ok (d, team', opp')
      | _ => Raise ValueError
      end
  | _ => Raise ValueError
  end.

(** The rest of the body: markers, score and the game object. *)
Definition row_tail (d : py_date) (team opp : string) (row : tr)
    : result Game :=
  match row with
  | date :: opponent :: result :: other =>
      vs <- text_of (td_li opponent) ;;
      let home := String.eqb vs "vs" in
      w <- text_of (td_span result) ;;
      let won := String.eqb w "W" in
      a <- text_of (hd_error (td_a result)) ;;
      score <- map_result py_int
                 (split_by (Ascii.eqb "-")
                    (hd "" (split_by (Ascii.eqb " ") a))) ;;
      one_game d team opp home won score
  | _ => Raise ValueError
  end.

(** One pass of the row loop: the value of the loop's variable [team]
    after it (rebound once the names are resolved, also when the pass
    fails later) and the game or the exception. *)
Definition row_game (season : Z) (team : string) (row : tr)
    : string * result Game :=
  match row_head season team row with
  | Raise e => (team, Raise e)
  | Ok (d, team', opp') => (team', row_tail d team' opp' row)
  end.

(** The row loop as a generator: the games it yields and the exception
    that ends it, if one escapes. *)
Fixpoint fetch_rows (season : Z) (team : string) (entries : list tr)
    : list Game * option exn :=
  match entries with
  | [] => ([], None)
  | row :: entries' =>
      match row_game season team row with
      | (team', Ok game) =>
          let (games, e) := fetch_rows season team' entries' in
          (game :: games, e)
      | (team', Raise e) =>
          if caught e then fetch_rows season team' entries'
          else ([], Some e)
      end
  end.

(** [fetch_games(team, season)] *)
Definition fetch_games (team : string) (season : Z)
    : list Game * option exn :=
  match abbr scorer team true with
  | Raise e => ([], Some e)
  | Ok name =>
      match remote (BASEURL name season) with
      | Raise e => ([], Some e)
      | Ok None => ([], None)
      | Ok (Some rows) => fetch_rows season team (tl rows)
      end
  end.

(** [list(fetch_games(team, season))] *)
Definition list_fetch_games (team : string) (season : Z)
    : result (list Game) :=
  match fetch_games team season with
  | (games, None) => Ok games
  | (_, Some e) => Raise e
  end.

End Fetcher.

(** ** Dictionaries and the cache *)

(** A [dict] with its insertion order: the keys are pairwise different. *)
Definition dict (K V : Type) : Type := list (K * V).

Section Dict.

Context {K V : Type}.
Variable eqb : K -> K -> bool.

(** [d.get(k)] *)
Fixpoint dget (k : K) (d : dict K V) : option V :=
  match d with
  | [] => None
  | (k', v) :: d' => if eqb k k' then Some v else dget k d'
  end.

(** [d[k] = v]: a key already there keeps its place, a new one goes last. *)
Fixpoint dset (k : K) (v : V) (d : dict K V) : dict K V :=
  match d with
  | [] => [(k, v)]
  | (k', v') :: d' =>
      if eqb k k' then (k', v) :: d' else (k', v') :: dset k v d'
  end.

(** [d.keys()] *)
Definition keys (d : dict K V) : list K := map fst d.

End Dict.

(** The cache, a [defaultdict(dict)]: season -> team -> games. *)
Definition cache : Type := dict Z (dict string (list Game)).

(** [games[season]] on the [defaultdict]: a missing season reads as [{}]. *)
Definition season_cells (season : Z) (games : cache)
    : dict string (list Game) :=
  match dget Z.eqb season games with
  | Some cells => cells
  | None => []
  end.

(** [games[season][team] = value] *)
Definition cache_set (season : Z) (team : string) (value : list Game)
    (games : cache) : cache :=
  dset Z.eqb season (dset String.eqb team value (season_cells season games))
    games.

(** The cell [(season, team)], if the cache has it. *)
Definition cache_get (season : Z) (team : string) (games : cache)
    : option (list Game) :=
  dget String.eqb team (season_cells season games).

(** [max(l)] on integers; [ValueError] on an empty sequence. *)
Definition py_max (l : list Z) : result Z :=
  match l with
  | [] => Raise ValueError
  | x :: l' => Ok (fold_left Z.max l' x)
  end.

(** [range(a, b)] *)
Definition py_range (a b : Z) : list Z :=
  map (fun i => a + Z.of_nat i) (seq 0 (Z.to_nat (b - a))).

(** ** The cache updater *)

(** [now.year + 1 if now.month > 7 else now.year] *)
Definition current_season (now_year now_month : Z) : Z :=
  if 7 <? now_month then now_year + 1 else now_year.

(** The first half of [update]: the seasons to scrape and the cache to
    start from.  [disk] is the content of the cache file, [None] when the
    file does not exist. *)
Definition update_plan (now_year now_month : Z) (disk : option cache)
    (rebuild : bool) : result (list Z * cache) :=
  let current_season := current_season now_year now_month in
  match disk, rebuild with
  | Some games, false =>
      most_current_year <- py_max (keys games) ;;
      Ok (py_range most_current_year (current_season + 1), games)
  | _, _ => Ok (py_range 2003 (current_season + 1), [])
  end.

Section Updater.

Variable scorer : string -> string -> Z.
Variable remote : string -> result page.

(** The loop of [update] over the cells [(season, team)]: each pass
    fetches, writes the cell and dumps the whole cache to the file.  The
    result is the file's content and the exception that ended the loop,
    if any. *)
Fixpoint run_cells (cells : list (Z * alias_row)) (games : cache)
    (disk : option cache) : option cache * option exn :=
  match cells with
  | [] => (disk, None)
  | (season, row) :: cells' =>
      match list_fetch_games scorer remote (std row) season with
      | Raise e => (disk, Some e)
      | Ok value =>
          let games' := cache_set season (std row) value games in
          run_cells cells' games' (Some games')
      end
  end.

(** [update(cachefile, rebuild)] at the time [now]. *)
Definition update (now_year now_month : Z) (disk : option cache)
    (rebuild : bool) : option cache * option exn :=
  match update_plan now_year now_month disk rebuild with
  | Raise e => (disk, Some e)
  | Ok (scrape_seasons, games) =>
      run_cells (list_prod scrape_seasons team_aliases) games disk
  end.

End Updater.

(** ** The cache reader *)

(** [a < b] on dates. *)
Definition date_ltb (a b : py_date) : bool :=
  (year a <? year b)
  || ((year a =? year b)
      && ((month a <? month b)
          || ((month a =? month b) && (day a <? day b)))).

(** [sorted(l, key=lambda g: g.date)], a stable sort: a game goes in front
    of the games that are not earlier than it. *)
Fixpoint insert_by_date (g : Game) (l : list Game) : list Game :=
  match l with
  | [] => [g]
  | h :: l' =>
      if date_ltb (date h) (date g) then h :: insert_by_date g l'
      else g :: h :: l'
  end.

Definition sorted_by_date (l : list Game) : list Game :=
  fold_right insert_by_date [] l.

(** [d[k]] on a plain [dict] *)
Definition getitem {V : Type} (k : string) (d : dict string V) : result V :=
  match dget String.eqb k d with
  | Some v => Ok v
  | None => Raise KeyError
  end.

(** The module's library branch: the games of the cache file in date
    order; without a cache file the module exits. *)
Definition load_games (disk : option cache) : result (list Game) :=
  match disk with
  | None => Raise SystemExit
  | Some games =>
      let years := keys games in
      cells <- map_result
                 (fun '(t, y) => getitem t (season_cells y games))
                 (list_prod teams years) ;;
      Ok (sorted_by_date (List.concat cells))
  end.

(** The first choice whose processed form is that of the query. *)
Definition first_exact (query : string) (choices : list string)
    : option string :=
  find (fun c => String.eqb (full_process c) (full_process query)) choices.

(** ** Auxiliary notions for the date format *)

Fixpoint has_space (s : string) : bool :=
  match s with
  | EmptyString => false
  | String c s' => is_space c || has_space s'
  end.

(** What follows the last whitespace character of a string (the string
    itself without one). *)
Fixpoint tail_field (s : string) : string :=
  match s with
  | EmptyString => EmptyString
  | String c s' =>
      if is_space c || has_space s' then tail_field s' else s
  end.

(** The decimal digit of a character put in front of a decimal number. *)
Definition dcons (c : ascii) (t : Decimal.uint) : Decimal.uint :=
  match digit_val c with
  | Some 0 => Decimal.D0 t
  | Some 1 => Decimal.D1 t
  | Some 2 => Decimal.D2 t
  | Some 3 => Decimal.D3 t
  | Some 4 => Decimal.D4 t
  | Some 5 => Decimal.D5 t
  | Some 6 => Decimal.D6 t
  | Some 7 => Decimal.D7 t
  | Some 8 => Decimal.D8 t
  | _ => Decimal.D9 t
  end.

(** [r] is what is left of [s] after some prefix. *)
Definition suffix (r s : string) : Prop := exists p : string, s = p ++ r.

(** ** Sample pages *)

(** A schedule row as the site lays it out: the date, the opponent cell
    with a home marker and two links (logo and name), and the result cell
    with a win marker and the linked score. *)
Definition schedule_row (date marker name outcome score : string) : tr :=
  [ mktd date [] None None;
    mktd (marker ++ name) [""; name] (Some marker) None;
    mktd (outcome ++ score) [score] None (Some outcome) ].

(** The heading row of the table: it has no [td] cell. *)
Definition heading_row : tr := [].

(** A postponed game: the result cell has neither marker nor link. *)
Definition postponed_row (date marker name : string) : tr :=
  [ mktd date [] None None;
    mktd (marker ++ name) [""; name] (Some marker) None;
    mktd "Postponed" [] None None ].

(** A row whose opponent is printed without a logo link: a single link in
    the opponent cell. *)
Definition unlinked_row (date marker name outcome score : string) : tr :=
  [ mktd date [] None None;
    mktd (marker ++ name) [name] (Some marker) None;
    mktd (outcome ++ score) [score] None (Some outcome) ].

Definition serve (p : page) (url : string) : result page := Ok p.

Definition page_2021 : page :=
  Some [ heading_row;
         schedule_row "Tue, Nov 10" "vs" "Cleveland" "W" "102-99";
         schedule_row "Fri, Jan 15" "@" "Miami" "L" "110-105 OT" ].

Definition game_nov_10 : Game :=
  mkGame (mkdate 2020 11 10) "BOS" "CLE" true true [102; 99]
    "BOS" "CLE" 102 99 102 99 "BOS" "CLE".

Definition game_jan_15 : Game :=
  mkGame (mkdate 2021 1 15) "BOS" "MIA" false false [110; 105]
    "MIA" "BOS" 105 110 110 105 "MIA" "BOS".

(** Season 2020 of Boston with a postponed game between two played ones. *)
Definition page_2020_postponed : page :=
  Some [ heading_row;
         schedule_row "Wed, Oct 23" "@" "Philadelphia" "L" "107-93";
         postponed_row "Fri, Oct 25" "vs" "Toronto";
         schedule_row "Sat, Oct 26" "@" "NY Knicks" "W" "118-95" ].

(** The same season with the middle row printed without its logo link. *)
Definition page_2020_unlinked : page :=
  Some [ heading_row;
         schedule_row "Wed, Oct 23" "@" "Philadelphia" "L" "107-93";
         unlinked_row "Fri, Oct 25" "vs" "Toronto" "W" "112-106 OT";
         schedule_row "Sat, Oct 26" "@" "NY Knicks" "W" "118-95" ].

Definition game_oct_23 : Game :=
  mkGame (mkdate 2019 10 23) "BOS" "PHI" false false [107; 93]
    "PHI" "BOS" 93 107 107 93 "PHI" "BOS".

Definition game_oct_26 : Game :=
  mkGame (mkdate 2019 10 26) "BOS" "NYK" false true [118; 95]
    "NYK" "BOS" 118 95 95 118 "BOS" "NYK".

(** ** Auxiliary notions for the reader *)

(** The cell [(season, team)] read as a list: nothing when it is absent. *)
Definition cell_games (games : cache) (ty : string * Z) : list Game :=
  match cache_get (snd ty) (fst ty) games with
  | Some l => l
  | None => []
  end.

(** The cells of all teams and cached seasons chained in the reader's
    order: team by team, and for each team season by season. *)
Definition flat_cells (games : cache) : list Game :=
  List.concat (map (cell_games games) (list_prod teams (keys games))).

(** Every cached season has a cell for every team of the alias table. *)
Definition complete (games : cache) : bool :=
  forallb (fun y =>
    forallb (fun t =>
      match cache_get y t games with Some _ => true | None => false end)
      teams)
    (keys games).

(** The season keys are pairwise different. *)
Fixpoint distinct_keys (games : cache) : bool :=
  match games with
  | [] => true
  | (y, _) :: games' =>
      negb (existsb (Z.eqb y) (keys games')) && distinct_keys games'
  end.

(** Not later than: the order of the sorted sequence. *)
Definition date_le (a b : Game) : Prop := date_ltb (date b) (date a) = false.

Definition game_2018_10_16 : Game :=
  mkGame (mkdate 2018 10 16) "BOS" "PHI" true true [105; 87]
    "BOS" "PHI" 105 87 105 87 "BOS" "PHI".

Definition game_2018_10_19 : Game :=
  mkGame (mkdate 2018 10 19) "BOS" "TOR" false false [113; 101]
    "TOR" "BOS" 101 113 113 101 "TOR" "BOS".

(** The cache of the reader scenario as the spec writes it: two seasons
    with a cell for Boston only. *)
Definition boston_only_cache : cache :=
  [ (2019, [("BOS", [game_2018_10_16; game_2018_10_19])]);
    (2020, [("BOS", [game_oct_23])]) ].

(** A season in which Boston has the given games and every other team
    none. *)
Definition boston_season (l : list Game) : dict string (list Game) :=
  map (fun t => (t, if String.eqb t "BOS" then l else [])) teams.

Definition full_cache : cache :=
  [ (2019, boston_season [game_2018_10_16; game_2018_10_19]);
    (2020, boston_season [game_oct_23]) ].

(** The same cache with its season keys in the other order. *)
Definition full_cache_swapped : cache :=
  [ (2020, boston_season [game_oct_23]);
    (2019, boston_season [game_2018_10_16; game_2018_10_19]) ].

(** ** Auxiliary notions for the updater *)

Section Cells.

(** What [list(fetch_games(team, season))] gives. *)
Variable fetch : string -> Z -> result (list Game).

Definition fetch_cell (c : Z * alias_row) : result (list Game) :=
  fetch (std (snd c)) (fst c).

(** The fetch of the cell succeeds. *)
Definition fetched (c : Z * alias_row) : Prop :=
  exists value, fetch_cell c = Ok value.

(** The cells at the front of the iteration whose fetch succeeds. *)
Fixpoint completed (cells : list (Z * alias_row)) : list (Z * alias_row) :=
  match cells with
  | [] => []
  | c :: cells' =>
      match fetch_cell c with
      | Ok _ => c :: completed cells'
      | Raise _ => []
      end
  end.

(** The cache after the given cells are fetched and written, one after
    the other. *)
Definition write_cell (games : cache) (c : Z * alias_row) : cache :=
  match fetch_cell c with
  | Ok value => cache_set (fst c) (std (snd c)) value games
  | Raise _ => games
  end.

Definition write_cells (cells : list (Z * alias_row)) (games : cache)
    : cache :=
  fold_left write_cell cells games.

End Cells.

(** The cells of an update run. *)
Definition update_cells (seasons : list Z) : list (Z * alias_row) :=
  list_prod seasons team_aliases.

(** A site that serves Atlanta's and Brooklyn's page of 2003 and is down
    for every other request. *)
Definition two_pages_then_down (url : string) : result page :=
  if String.eqb url (BASEURL (Some "atl") 2003)
     || String.eqb url (BASEURL (Some "bkn") 2003)
  then Ok page_2020_postponed
  else Raise ConnectionError.

(** The first two cells of season 2003, and the other 28. *)
Definition cells_done_2003 : list (Z * alias_row) :=
  firstn 2 (update_cells [2003]).

Definition cells_rest_2003 : list (Z * alias_row) :=
  skipn 2 (update_cells [2003]).

(** [a == b] on dates. *)
Definition date_eqb (a b : py_date) : bool :=
  (year a =? year b) && (month a =? month b) && (day a =? day b).

(** The key of a cell in the cache: its season and the standard
    abbreviation of its row. *)
Definition cell_key (c : Z * alias_row) : Z * string :=
  (fst c, std (snd c)).

(** The cache that a first run of January 2003 writes when every request
    is answered with the sample page of season 2021. *)
Definition first_run_file : cache :=
  write_cells (list_fetch_games exact_scorer (serve page_2021))
    (update_cells [2003]) [].

(** ** Well-formed schedule rows *)




(** * Properties *)

(** ** The game record builder *)

(** C1: on a two-element score, [one_game] returns a record whose derived
    fields follow from (team, opp, home, won, score): home and away team,
    team and opponent score, home and away score, winner and loser; the
    home and away scores add up to the two score components, and winner
    and loser are the two teams, one each. *)
Theorem one_game_derived_fields :
  forall (d : py_date) (t o : string) (h w : bool) (s0 s1 : Z),
  exists g : Game,
    one_game d t o h w [s0; s1] = Ok g /\
    date g = d /\ team g = t /\ opp g = o /\ home g = h /\ won g = w /\
    score g = [s0; s1] /\
    home_team g = (if h then t else o) /\
    away_team g = (if h then o else t) /\
    team_score g = (if w then s0 else s1) /\
    opp_score g = (if w then s1 else s0) /\
    home_score g = (if h then team_score g else opp_score g) /\
    away_score g = (if h then opp_score g else team_score g) /\
    winner g = (if w then t else o) /\
    loser g = (if w then o else t) /\
    home_score g + away_score g = s0 + s1 /\
    ((winner g = t /\ loser g = o) \/ (winner g = o /\ loser g = t)).
Proof.
  intros d t o h w s0 s1.
  eexists; split; [reflexivity|]; cbn.
  repeat split; destruct h, w; auto; lia.
Qed.

(** ** The season range of the updater *)

Lemma in_py_range (a b s : Z) : In s (py_range a b) <-> a <= s < b.
Proof.
  unfold py_range; rewrite in_map_iff; split.
  - intros [i [<- Hi]]. apply in_seq in Hi. lia.
  - intros H. exists (Z.to_nat (s - a)). split; [lia|].
    apply in_seq. lia.
Qed.

Lemma py_range_sorted (a b : Z) : StronglySorted Z.lt (py_range a b).
Proof.
  unfold py_range.
  generalize (Z.to_nat (b - a)) as n, 0%nat as k.
  induction n as [|n IH]; intros k; cbn; constructor.
  - apply IH.
  - apply Forall_forall. intros x Hx.
    apply in_map_iff in Hx as [i [<- Hi]]. apply in_seq in Hi. lia.
Qed.

Lemma fold_max_ge (l : list Z) (x : Z) : x <= fold_left Z.max l x.
Proof.
  revert x; induction l as [|y l IH]; intros x; cbn; [lia|].
  specialize (IH (Z.max x y)). lia.
Qed.

Lemma fold_max_upper (l : list Z) (x s : Z) :
  In s (x :: l) -> s <= fold_left Z.max l x.
Proof.
  revert x; induction l as [|y l IH]; intros x [->|H]; cbn.
  - lia.
  - destruct H.
  - pose proof (fold_max_ge l (Z.max s y)). lia.
  - destruct H as [->|H].
    + pose proof (fold_max_ge l (Z.max x s)). lia.
    + apply IH. right. exact H.
Qed.

Lemma fold_max_in (l : list Z) (x : Z) : In (fold_left Z.max l x) (x :: l).
Proof.
  revert x; induction l as [|y l IH]; intros x; cbn; [auto|].
  destruct (IH (Z.max x y)) as [H|H]; [|auto].
  rewrite <- H. destruct (Z.max_spec x y) as [[_ ->]|[_ ->]]; auto.
Qed.

(** C2: the current season is the year after the current one when the month
    is past July, else the current year; with a cache file and no rebuild,
    the seasons to scrape run from the largest season key of the loaded
    cache through the current season, and the loaded cache is kept;
    otherwise they run from 2003 through the current season, from an empty
    cache. *)
Theorem update_plan_season_range :
  forall (now_year now_month : Z) (disk : option cache) (rebuild : bool),
    let cs := current_season now_year now_month in
    cs = (if 7 <? now_month then now_year + 1 else now_year) /\
    match disk, rebuild with
    | Some games, false =>
        forall k ks, keys games = k :: ks ->
        exists top seasons,
          update_plan now_year now_month disk rebuild = Ok (seasons, games) /\
          In top (keys games) /\
          (forall s, In s (keys games) -> s <= top) /\
          (forall s, In s seasons <-> top <= s <= cs) /\
          StronglySorted Z.lt seasons
    | _, _ =>
        exists seasons,
          update_plan now_year now_month disk rebuild = Ok (seasons, []) /\
          (forall s, In s seasons <-> 2003 <= s <= cs) /\
          StronglySorted Z.lt seasons
    end.
Proof.
  intros y m disk rebuild cs. split; [reflexivity|].
  assert (Hfresh : exists seasons,
            Ok (py_range 2003 (cs + 1), @nil (Z * dict string (list Game)))
              = Ok (seasons, []) /\
            (forall s, In s seasons <-> 2003 <= s <= cs) /\
            StronglySorted Z.lt seasons).
  { eexists; split; [reflexivity|]. split.
    - intros s. rewrite in_py_range. lia.
    - apply py_range_sorted. }
  destruct disk as [games|], rebuild; try exact Hfresh.
  intros k ks Hk. unfold update_plan. rewrite Hk. cbn.
  exists (fold_left Z.max ks k), (py_range (fold_left Z.max ks k) (cs + 1)).
  split; [reflexivity|]. split; [apply fold_max_in|]. split.
  - intros s. apply fold_max_upper.
  - split; [|apply py_range_sorted].
    intros s. rewrite in_py_range. lia.
Qed.

(** A loaded cache without a season key stops the run: [max] of an empty
    sequence raises [ValueError]. *)
Lemma update_plan_empty_cache (now_year now_month : Z) :
  update_plan now_year now_month (Some []) false = Raise ValueError.
Proof. reflexivity. Qed.

(** A cache with the seasons 2019 and 2021, read in August 2021. *)
Lemma update_plan_season_range_witness :
  exists top seasons,
    update_plan 2021 8 (Some [(2019, []); (2021, [])]) false
      = Ok (seasons, [(2019, []); (2021, [])]) /\
    In top [2019; 2021] /\
    (forall s, In s [2019; 2021] -> s <= top) /\
    (forall s, In s seasons <-> top <= s <= 2022) /\
    StronglySorted Z.lt seasons.
Proof.
  exact (proj2 (update_plan_season_range 2021 8
                  (Some [(2019, []); (2021, [])]) false) 2019 [2021] eq_refl).
Defined.

(** ** The resolver *)

Lemma abbr_lookup_none (name : string) (use_espn : bool)
    (rows : list alias_row) :
  (forall r, In r rows -> in_row name r = false) ->
  abbr_lookup name use_espn rows = None.
Proof.
  induction rows as [|r rows IH]; intros H; cbn [abbr_lookup];
    [reflexivity|].
  rewrite (H r (or_introl eq_refl)). apply IH.
  intros r' Hr'. apply H. right. exact Hr'.
Qed.

Lemma abbr_lookup_some (name : string) (use_espn : bool)
    (rows : list alias_row) :
  In name (flat_map row_items rows) ->
  exists r, In r rows /\ in_row name r = true /\
    abbr_lookup name use_espn rows
      = Some (if use_espn then espn r else std r).
Proof.
  induction rows as [|r rows IH]; cbn [abbr_lookup flat_map];
    [intros []|].
  intros H. destruct (in_row name r) eqn:Hr.
  - exists r. split; [left; reflexivity|]. split; [exact Hr|reflexivity].
  - apply in_app_or in H. destruct H as [H|H].
    { exfalso. unfold in_row in Hr.
      assert (Ht : existsb (String.eqb name) (row_items r) = true).
      { apply existsb_exists. exists name. split; [exact H|].
        apply String.eqb_refl. }
      congruence. }
    destruct (IH H) as [r' [Hin [Hrow Heq]]].
    exists r'. split; [right; exact Hin|]. split; assumption.
Qed.

Section ResolverFacts.

Variable scorer : string -> string -> Z.

Lemma first_max_in (best : string * Z) (l : list (string * Z)) :
  In (first_max best l) (best :: l).
Proof.
  revert best; induction l as [|x l IH]; intros best; cbn; [auto|].
  destruct (IH (if snd best <? snd x then x else best)) as [H|H]; [|auto].
  rewrite <- H. destruct (snd best <? snd x); auto.
Qed.

Lemma extractOne_in (query : string) (choices : list string)
    (name : string) (confidence : Z) :
  extractOne scorer query choices = Some (name, confidence) ->
  In name choices.
Proof.
  unfold extractOne.
  destruct (filter _ _) as [|x l] eqn:Hf; [discriminate|].
  intros [= H].
  assert (Hin : In (name, confidence) (x :: l))
    by (rewrite <- H; apply first_max_in).
  rewrite <- Hf in Hin. apply filter_In in Hin as [Hin _].
  apply in_map_iff in Hin as [c [[= -> _] Hc]]. exact Hc.
Qed.

(** The match comes from the pool, so the loop of [abbr] always finds its
    row: the function never returns [None]. *)
Lemma abbr_not_none (team : string) (use_espn : bool) :
  abbr scorer team use_espn <> Ok None.
Proof.
  unfold abbr, abbr_with.
  destruct (extractOne scorer team alias_pool) as [[name c]|] eqn:He;
    [|discriminate].
  apply extractOne_in in He.
  destruct (abbr_lookup_some name use_espn team_aliases He)
    as [r [_ [_ ->]]].
  discriminate.
Qed.

(** A first maximum that is already 100 stays. *)
Lemma first_max_top (best : string * Z) (l : list (string * Z)) :
  snd best = 100 -> Forall (fun x => snd x <= 100) l ->
  first_max best l = best.
Proof.
  revert best; induction l as [|x l IH]; intros best Hb Hl; cbn;
    [reflexivity|].
  inversion Hl as [|? ? Hx Hl']; subst.
  destruct (Z.ltb_spec (snd best) (snd x)); [lia|].
  apply IH; assumption.
Qed.

Lemma first_max_reach (best c : string * Z) (l1 l2 : list (string * Z)) :
  snd best < 100 -> Forall (fun x => snd x < 100) l1 ->
  snd c = 100 -> Forall (fun x => snd x <= 100) l2 ->
  first_max best (l1 ++ c :: l2) = c.
Proof.
  revert best; induction l1 as [|x l1 IH]; intros best Hb H1 Hc H2; cbn.
  - destruct (Z.ltb_spec (snd best) (snd c)); [|lia].
    apply first_max_top; assumption.
  - inversion H1 as [|? ? Hx H1']; subst.
    apply IH; try assumption.
    destruct (snd best <? snd x); assumption.
Qed.

End ResolverFacts.

Section ExactMatch.

Variable scorer : string -> string -> Z.
Variable query : string.
Variable choices : list string.

Hypothesis score_same :
  scorer (full_process query) (full_process query) = 100.
Hypothesis score_other :
  forall c, In c choices -> full_process c <> full_process query ->
  scorer (full_process query) (full_process c) < 100.

Let scored (l : list string) : list (string * Z) :=
  filter (fun x => 0 <=? snd x)
    (map (fun c => (c, scorer (full_process query) (full_process c))) l).

Lemma scored_le (l : list string) :
  incl l choices -> Forall (fun x => snd x <= 100) (scored l).
Proof.
  intros Hl. apply Forall_forall. intros [c z] Hx.
  apply filter_In in Hx as [Hx _].
  apply in_map_iff in Hx as [c' [[= -> <-] Hc]]. cbn.
  destruct (String.eqb_spec (full_process c) (full_process query)) as [->|Hne].
  - lia.
  - specialize (score_other c (Hl c Hc) Hne). lia.
Qed.

Lemma scored_lt (l : list string) :
  incl l choices ->
  (forall c, In c l -> full_process c <> full_process query) ->
  Forall (fun x => snd x < 100) (scored l).
Proof.
  intros Hl Hne. apply Forall_forall. intros [c z] Hx.
  apply filter_In in Hx as [Hx _].
  apply in_map_iff in Hx as [c' [[= -> <-] Hc]]. cbn.
  apply score_other; auto.
Qed.

(** With a scorer that gives 100 to an exact match and less to anything
    else, [extractOne] returns the first exact match. *)
Lemma extractOne_first_exact (c : string) :
  first_exact query choices = Some c ->
  extractOne scorer query choices = Some (c, 100).
Proof.
  unfold first_exact. intros Hf.
  assert (Hsplit : exists l1 l2, choices = (l1 ++ c :: l2)%list /\
            (forall x, In x l1 -> full_process x <> full_process query) /\
            full_process c = full_process query).
  { clear score_other. revert Hf.
    induction choices as [|x l IH]; cbn; [discriminate|].
    destruct (String.eqb_spec (full_process x) (full_process query))
      as [He|Hne].
    - intros [= ->]. exists [], l. repeat split; auto.
    - intros Hf. destruct (IH Hf) as [l1 [l2 [-> [H1 H2]]]].
      exists (x :: l1), l2. repeat split; auto.
      intros y [<-|Hy]; auto. }
  destruct Hsplit as [l1 [l2 [Hc [H1 H2]]]].
  assert (Hi1 : incl l1 choices)
    by (rewrite Hc; intros y Hy; apply in_or_app; auto).
  assert (Hi2 : incl l2 choices)
    by (rewrite Hc; intros y Hy; apply in_or_app; right; right; exact Hy).
  pose proof (scored_lt l1 Hi1 H1) as Hlt.
  pose proof (scored_le l2 Hi2) as Hle.
  unfold extractOne. rewrite Hc at 1.
  rewrite map_app, filter_app. cbn [map filter snd].
  rewrite H2, score_same. cbn [Z.leb Z.compare].
  fold (scored l1). fold (scored l2).
  destruct (scored l1) as [|b l1'] eqn:Hs1; cbn [app].
  - f_equal. apply first_max_top; [reflexivity|exact Hle].
  - f_equal. inversion Hlt; subst.
    apply first_max_reach; auto.
Qed.

End ExactMatch.

(** C10: with a scorer that gives 100 to equal processed strings and less
    to a choice of the pool that differs from the query, the resolver
    returns every standard abbreviation of the alias table unchanged. *)
Theorem abbr_standard_idempotent :
  forall (scorer : string -> string -> Z),
    (forall s, In s teams ->
       scorer (full_process s) (full_process s) = 100) ->
    (forall s c, In s teams -> In c alias_pool ->
       full_process c <> full_process s ->
       scorer (full_process s) (full_process c) < 100) ->
    forall s, In s teams -> abbr scorer s false = Ok (Some s).
Proof.
  intros scorer Hsame Hother s Hs.
  assert (Hall : forallb (fun s =>
            match first_exact s alias_pool with
            | Some c => String.eqb c s
              && match abbr_lookup c false team_aliases with
                 | Some a => String.eqb a s
                 | None => false
                 end
            | None => false
            end) teams = true) by (vm_compute; reflexivity).
  rewrite forallb_forall in Hall. specialize (Hall s Hs).
  destruct (first_exact s alias_pool) as [c|] eqn:Hf; [|discriminate].
  apply andb_prop in Hall as [Hc Ha].
  apply String.eqb_eq in Hc. subst c.
  destruct (abbr_lookup s false team_aliases) as [a|] eqn:Hl; [|discriminate].
  apply String.eqb_eq in Ha. subst a.
  unfold abbr, abbr_with.
  rewrite (extractOne_first_exact scorer s alias_pool (Hsame s Hs)
             (fun c Hc Hne => Hother s c Hs Hc Hne) s Hf).
  rewrite Hl. reflexivity.
Qed.

Lemma abbr_standard_idempotent_witness :
  abbr exact_scorer "GSW" false = Ok (Some "GSW").
Proof.
  apply abbr_standard_idempotent.
  - intros s _. unfold exact_scorer. rewrite String.eqb_refl. reflexivity.
  - intros s c _ _ Hne. unfold exact_scorer.
    destruct (String.eqb_spec (full_process s) (full_process c)) as [He|_];
      [congruence|lia].
  - unfold teams. cbn. tauto.
Defined.

(** ** Dates *)

Ltac each_char c := destruct c as [[|] [|] [|] [|] [|] [|] [|] [|]].

Lemma digit_not_space (c : ascii) (v : Z) :
  digit_val c = Some v -> is_space c = false.
Proof. each_char c; cbv; congruence. Qed.

Lemma digit_range (c : ascii) (v : Z) : digit_val c = Some v -> 0 <= v <= 9.
Proof. each_char c; cbv; intros [= <-]; split; discriminate. Qed.

Lemma dcons_of_char (c : ascii) (v : Z) (t : Decimal.uint) :
  digit_val c = Some v -> uint_of_char c (Some t) = Some (dcons c t).
Proof. each_char c; cbv; congruence. Qed.

Lemma dcons_revapp (c : ascii) (t acc : Decimal.uint) :
  Decimal.revapp (dcons c t) acc = Decimal.revapp t (dcons c acc).
Proof. each_char c; reflexivity. Qed.

Lemma dcons_tl (c : ascii) (t : Decimal.uint) :
  DecimalPos.Unsigned.tl (dcons c t) = t.
Proof. each_char c; reflexivity. Qed.

Lemma dcons_hd (c : ascii) (v : Z) (t : Decimal.uint) :
  digit_val c = Some v -> Z.of_N (DecimalPos.Unsigned.hd (dcons c t)) = v.
Proof. each_char c; cbv; congruence. Qed.

Lemma dcons_of_lu (c : ascii) (v : Z) (t : Decimal.uint) :
  digit_val c = Some v ->
  Z.of_N (DecimalPos.Unsigned.of_lu (dcons c t))
    = v + 10 * Z.of_N (DecimalPos.Unsigned.of_lu t).
Proof.
  intros H. rewrite DecimalPos.Unsigned.of_lu_eqn, dcons_tl.
  rewrite N2Z.inj_add, N2Z.inj_mul, (dcons_hd c v t H). reflexivity.
Qed.

(** A year printed by [py_str] and read back as four digits is the same
    year. *)
Lemma py_str_four_digits (n : Z) (a b c d : ascii) (w x y z : Z) :
  py_str n = String a (String b (String c (String d EmptyString))) ->
  digit_val a = Some w -> digit_val b = Some x ->
  digit_val c = Some y -> digit_val d = Some z ->
  n = 1000 * w + 100 * x + 10 * y + z.
Proof.
  intros Hs Ha Hb Hc Hd. unfold py_str in Hs.
  rewrite <- (DecimalZ.of_to n).
  destruct (Z.to_int n) as [u|u]; cbn [NilZero.string_of_int] in Hs.
  - assert (Hu : NilEmpty.uint_of_string
                   (String a (String b (String c (String d EmptyString))))
                 = Some u).
    { rewrite <- Hs. destruct u; try apply NilEmpty.usu.
      cbn in Hs. discriminate Hs. }
    cbn [NilEmpty.uint_of_string] in Hu.
    rewrite (dcons_of_char d z _ Hd), (dcons_of_char c y _ Hc),
      (dcons_of_char b x _ Hb), (dcons_of_char a w _ Ha) in Hu.
    injection Hu as <-.
    cbn [Z.of_int]. unfold Z.of_uint.
    rewrite DecimalPos.Unsigned.of_uint_alt. unfold Decimal.rev.
    rewrite !dcons_revapp. cbn [Decimal.revapp].
    rewrite (dcons_of_lu d z _ Hd), (dcons_of_lu c y _ Hc),
      (dcons_of_lu b x _ Hb), (dcons_of_lu a w _ Ha).
    cbn [DecimalPos.Unsigned.of_lu Z.of_N]. lia.
  - injection Hs as <- _. cbv in Ha. discriminate Ha.
Qed.

Lemma has_space_uint (u : Decimal.uint) :
  has_space (NilEmpty.string_of_uint u) = false.
Proof. induction u; cbn; auto. Qed.

Lemma has_space_py_str (n : Z) : has_space (py_str n) = false.
Proof.
  unfold py_str. destruct (Z.to_int n) as [u|u]; cbn [NilZero.string_of_int].
  - destruct u; try apply has_space_uint. reflexivity.
  - cbn [has_space]. destruct u; try apply has_space_uint. reflexivity.
Qed.

Lemma tail_field_no_space (s : string) :
  has_space s = false -> tail_field s = s.
Proof.
  destruct s as [|c s]; cbn; [reflexivity|]. intros ->. reflexivity.
Qed.

Lemma has_space_app (p s : string) :
  has_space s = true -> has_space (p ++ s) = true.
Proof.
  intros H. induction p as [|c p IH]; cbn; [exact H|].
  rewrite IH. apply orb_true_r.
Qed.

Lemma tail_field_app (p s : string) :
  has_space s = true -> tail_field (p ++ s) = tail_field s.
Proof.
  intros H. induction p as [|c p IH]; cbn; [reflexivity|].
  rewrite (has_space_app p s H), orb_true_r. exact IH.
Qed.

Lemma tail_field_lstrip (s : string) : tail_field (lstrip s) = tail_field s.
Proof.
  induction s as [|c s IH]; cbn; [reflexivity|].
  destruct (is_space c) eqn:Hc; cbn; [exact IH|].
  rewrite Hc. reflexivity.
Qed.

Lemma suffix_refl (s : string) : suffix s s.
Proof. exists EmptyString. reflexivity. Qed.

Lemma string_app_assoc (a b c : string) : (a ++ b) ++ c = a ++ (b ++ c).
Proof.
  induction a as [|x a IH]; cbn; [reflexivity|]. rewrite IH. reflexivity.
Qed.

Lemma suffix_trans (a b c : string) : suffix a b -> suffix b c -> suffix a c.
Proof.
  intros [p ->] [q ->]. exists (q ++ p). symmetry. apply string_app_assoc.
Qed.

Lemma suffix_cons (c : ascii) (s : string) : suffix s (String c s).
Proof. exists (String c EmptyString). reflexivity. Qed.

Lemma suffix_lstrip (s : string) : suffix (lstrip s) s.
Proof.
  induction s as [|c s IH]; cbn; [apply suffix_refl|].
  destruct (is_space c); [|apply suffix_refl].
  eapply suffix_trans; [exact IH|apply suffix_cons].
Qed.

Lemma suffix_take3 (s w r : string) : take3 s = Some (w, r) -> suffix r s.
Proof.
  destruct s as [|a [|b [|c s]]]; try discriminate. intros [= _ <-].
  exists (String a (String b (String c EmptyString))). reflexivity.
Qed.

Lemma suffix_expect_comma (s r : string) :
  expect_comma s = Some r -> suffix r s.
Proof.
  destruct s as [|c s]; [discriminate|]. cbn.
  destruct (Ascii.eqb_spec c ","%char) as [->|Hne].
  - intros [= <-]. apply suffix_cons.
  - each_char c; try discriminate. congruence.
Qed.

Lemma suffix_skip_ws1 (s r : string) : skip_ws1 s = Some r -> suffix r s.
Proof.
  destruct s as [|c s]; [discriminate|]. cbn.
  destruct (is_space c); [|discriminate]. intros [= <-].
  eapply suffix_trans; [apply suffix_lstrip|apply suffix_cons].
Qed.

Lemma suffix_parse_day (s r : string) (d : Z) :
  parse_day s = Some (d, r) -> suffix r s.
Proof.
  unfold parse_day.
  destruct s as [|a [|b s]]; [discriminate| |].
  - destruct (digit_val a) as [x0|]; [|discriminate].
    destruct ((1 <=? x0) && (x0 <=? 31)); [|discriminate].
    intros [= _ <-]. apply suffix_cons.
  - assert (H2 : suffix s (String a (String b s)))
      by (eapply suffix_trans; apply suffix_cons).
    destruct (digit_val a) as [x0|], (digit_val b) as [y0|].
    + destruct ((1 <=? 10 * x0 + y0) && (10 * x0 + y0 <=? 31)).
      * intros [= _ <-]. exact H2.
      * destruct ((1 <=? x0) && (x0 <=? 31)); [|discriminate].
        intros [= _ <-]. apply suffix_cons.
    + destruct ((1 <=? x0) && (x0 <=? 31)); [|discriminate].
      intros [= _ <-]. apply suffix_cons.
    + destruct (Ascii.eqb a " "); [|discriminate].
      destruct ((1 <=? y0) && (y0 <=? 31)); [|discriminate].
      intros [= _ <-]. exact H2.
    + discriminate.
Qed.

Lemma tail_field_comma_space (s : string) :
  has_space s = false -> tail_field (", " ++ s) = s.
Proof.
  intros H. cbn [append tail_field has_space].
  change (is_space ","%char) with false.
  change (is_space " "%char) with true. cbn [orb].
  apply tail_field_no_space, H.
Qed.

Ltac bind_step H :=
  match type of H with
  | context [opt_bind ?o _] =>
      let E := fresh "E" in
      destruct o as [?|] eqn:E; cbn [opt_bind] in H; [|discriminate H]
  end.

(** The stages of a successful parse by [strptime_abdY]. *)
Lemma strptime_abdY_stages (s : string) (d : py_date) :
  strptime_abdY s = Ok d ->
  exists wd r1 r2 r3 mo r4 r5 r6 r7 r8,
    take3 s = Some (wd, r1) /\
    index_from 0 (lower wd) weekday_abbrs <> None /\
    expect_comma r1 = Some r2 /\
    skip_ws1 r2 = Some r3 /\
    take3 r3 = Some (mo, r4) /\
    index_from 1 (lower mo) month_abbrs = Some (month d) /\
    skip_ws1 r4 = Some r5 /\
    parse_day r5 = Some (day d, r6) /\
    expect_comma r6 = Some r7 /\
    skip_ws1 r7 = Some r8 /\
    parse_year_end r8 = Some (year d).
Proof.
  unfold strptime_abdY. intros H.
  match type of H with
  | match ?p with _ => _ end = _ => destruct p as [d'|] eqn:Hp;
      [|discriminate H]
  end.
  injection H as ->.
  bind_step Hp. destruct p as [wd r1].
  bind_step Hp. bind_step Hp. bind_step Hp.
  bind_step Hp. destruct p as [mo r4].
  bind_step Hp. bind_step Hp.
  bind_step Hp. destruct p as [dd r6].
  bind_step Hp. bind_step Hp. bind_step Hp.
  destruct ((1 <=? z1) && (dd <=? days_in_month z1 z0)); [|discriminate Hp].
  injection Hp as <-. cbn [year month day].
  exists wd, r1, s0, s1, mo, r4, s2, r6, s3, s4.
  repeat split; try assumption. congruence.
Qed.

(** The year of the parsed date is the year that was formatted into the
    string. *)
Lemma strptime_abdY_year (text : string) (n : Z) (d : py_date) :
  strptime_abdY (text ++ ", " ++ py_str n) = Ok d -> year d = n.
Proof.
  intros H.
  destruct (strptime_abdY_stages _ _ H)
    as (wd & r1 & r2 & r3 & mo & r4 & r5 & r6 & r7 & r8
        & H1 & _ & H2 & H3 & H4 & H5 & H6 & H7 & H8 & H9 & H10).
  assert (Hsuf : suffix r7 (text ++ ", " ++ py_str n)).
  { apply suffix_take3 in H1, H4. apply suffix_expect_comma in H2, H8.
    apply suffix_skip_ws1 in H3, H6. apply suffix_parse_day in H7.
    repeat (eapply suffix_trans; [eassumption|]). apply suffix_refl. }
  destruct r7 as [|c r]; [discriminate H9|]. cbn in H9.
  destruct (is_space c) eqn:Hc; [|discriminate H9]. injection H9 as <-.
  destruct (lstrip r) as [|a [|b [|c' [|e [|]]]]] eqn:Hr; try discriminate H10.
  cbn [parse_year_end] in H10.
  destruct (digit_val a) as [w|] eqn:Ha; [|discriminate H10].
  destruct (digit_val b) as [x|] eqn:Hb; [|discriminate H10].
  destruct (digit_val c') as [y|] eqn:Hc'; [|discriminate H10].
  destruct (digit_val e) as [z|] eqn:He; [|discriminate H10].
  injection H10 as H10. rewrite <- H10. symmetry.
  apply (py_str_four_digits n a b c' e w x y z); try assumption.
  (* both sides are what follows the last whitespace of the string *)
  destruct Hsuf as [p Hp].
  assert (Hl : tail_field (text ++ ", " ++ py_str n) = lstrip r).
  { rewrite Hp, tail_field_app by (cbn; rewrite Hc; reflexivity).
    cbn [tail_field]. rewrite Hc. cbn [orb].
    rewrite <- tail_field_lstrip. apply tail_field_no_space.
    rewrite Hr. cbn.
    rewrite (digit_not_space _ _ Ha), (digit_not_space _ _ Hb),
      (digit_not_space _ _ Hc'), (digit_not_space _ _ He). reflexivity. }
  rewrite <- Hr, <- Hl.
  rewrite tail_field_app by reflexivity.
  symmetry. apply tail_field_comma_space, has_space_py_str.
Qed.

(** *** Fields of a string and fields of a longer one *)

Lemma split_by_nonnil (p : ascii -> bool) (s : string) : split_by p s <> [].
Proof.
  destruct s as [|c s]; cbn; [discriminate|].
  destruct (p c); [discriminate|]. destruct (split_by p s); discriminate.
Qed.

Lemma split_ws_space (c : ascii) (s : string) :
  is_space c = true -> split_ws (String c s) = split_ws s.
Proof. intros H. unfold split_ws. cbn. rewrite H. reflexivity. Qed.

Lemma split_ws_lstrip (s : string) : split_ws (lstrip s) = split_ws s.
Proof.
  induction s as [|c s IH]; cbn [lstrip]; [reflexivity|].
  destruct (is_space c) eqn:Hc; [|reflexivity].
  rewrite split_ws_space by exact Hc. exact IH.
Qed.

(** A word without whitespace in front of a whitespace character is a
    field of its own. *)
Lemma split_ws_word (w : string) (c : ascii) (s : string) :
  w <> EmptyString -> has_space w = false -> is_space c = true ->
  split_ws (w ++ String c s) = w :: split_ws s.
Proof.
  intros Hne Hw Hc. unfold split_ws.
  assert (H : split_by is_space (w ++ String c s)
              = w :: split_by is_space s).
  { clear Hne. induction w as [|a w IH]; cbn [append split_by].
    - rewrite Hc. reflexivity.
    - cbn in Hw. apply orb_false_elim in Hw as [Ha Hw].
      rewrite Ha, (IH Hw). reflexivity. }
  rewrite H. cbn [filter].
  destruct w; [congruence|]. reflexivity.
Qed.

(** The fields of [s ++ z] are those of [s], except that its last one may
    grow. *)
Lemma split_by_app (p : ascii -> bool) (s z : string) :
  exists l x y, split_by p s = (l ++ [x])%list /\
    split_by p (s ++ z) = (l ++ y)%list.
Proof.
  induction s as [|c s IH]; cbn [append split_by].
  - exists [], EmptyString, (split_by p z). split; reflexivity.
  - destruct IH as (l & x & y & H1 & H2). rewrite H1, H2.
    destruct (p c).
    + exists (EmptyString :: l), x, y. split; reflexivity.
    + destruct l as [|w l]; cbn [app].
      * destruct y as [|w' y].
        -- exists [], (String c x), [String c EmptyString].
           split; reflexivity.
        -- exists [], (String c x), (String c w' :: y). split; reflexivity.
      * exists (String c w :: l), x, y. split; reflexivity.
Qed.

(** With three fields or more, the first two stay when the string grows. *)
Lemma split_ws_app_first (s z : string) (t1 t2 t3 : string)
    (ts : list string) :
  split_ws s = t1 :: t2 :: t3 :: ts ->
  exists ts', split_ws (s ++ z) = t1 :: t2 :: ts'.
Proof.
  unfold split_ws.
  destruct (split_by_app is_space s z) as (l & x & y & H1 & H2).
  set (f := fun w => negb (String.eqb w "")).
  rewrite H1, H2, !filter_app. cbn [filter].
  destruct (filter f l) as [|a [|b l']]; cbn [app].
  - destruct (f x); cbn; discriminate.
  - destruct (f x); cbn; discriminate.
  - intros [= -> -> _]. eexists. reflexivity.
Qed.

Lemma is_space_lower (c : ascii) : is_space (lower_char c) = is_space c.
Proof. each_char c; reflexivity. Qed.

Lemma has_space_lower (s : string) : has_space (lower s) = has_space s.
Proof.
  induction s as [|c s IH]; cbn; [reflexivity|].
  rewrite is_space_lower. unfold lower in IH. rewrite IH. reflexivity.
Qed.

Lemma index_from_in (n : Z) (w : string) (names : list string) (i : Z) :
  index_from n w names = Some i -> In w names.
Proof.
  revert n; induction names as [|x names IH]; intros n; cbn; [discriminate|].
  destruct (String.eqb_spec x w) as [->|_]; [auto|].
  intros H. right. exact (IH _ H).
Qed.

Lemma name_no_space (n : Z) (w : string) (names : list string) (i : Z) :
  forallb (fun x => negb (has_space x)) names = true ->
  index_from n (lower w) names = Some i -> has_space w = false.
Proof.
  intros Hall H. apply index_from_in in H.
  rewrite forallb_forall in Hall. specialize (Hall _ H).
  rewrite has_space_lower in Hall. destruct (has_space w);
    [discriminate|reflexivity].
Qed.

Lemma take3_app (s w r : string) :
  take3 s = Some (w, r) -> s = w ++ r /\ w <> EmptyString.
Proof.
  destruct s as [|a [|b [|c s]]]; try discriminate.
  intros [= <- <-]. split; [reflexivity|discriminate].
Qed.

Lemma expect_comma_eq (s r : string) :
  expect_comma s = Some r -> s = String ","%char r.
Proof.
  destruct s as [|c s]; [discriminate|].
  each_char c; try discriminate. intros [= <-]. reflexivity.
Qed.

Lemma skip_ws1_eq (s r : string) :
  skip_ws1 s = Some r ->
  exists c s', s = String c s' /\ is_space c = true /\ r = lstrip s'.
Proof.
  destruct s as [|c s]; [discriminate|]. cbn.
  destruct (is_space c) eqn:Hc; [|discriminate]. intros [= <-].
  exists c, s. auto.
Qed.

Lemma has_space_snoc_comma (w : string) :
  has_space w = false -> has_space (w ++ ",") = false.
Proof.
  induction w as [|a w IH]; cbn; [reflexivity|].
  intros H. apply orb_false_elim in H as [-> H]. rewrite (IH H). reflexivity.
Qed.

(** The month that [strptime_abdY] reads is the second field of the date
    text. *)
Lemma strptime_abdY_month (text z wd mo dy : string) (d : py_date) :
  split_ws text = [wd; mo; dy] ->
  strptime_abdY (text ++ z) = Ok d ->
  index_from 1 (lower mo) month_abbrs = Some (month d).
Proof.
  intros Hsplit H.
  destruct (strptime_abdY_stages _ _ H)
    as (wd3 & r1 & r2 & r3 & mo3 & r4 & r5 & r6 & r7 & r8
        & H1 & Hwd & H2 & H3 & H4 & H5 & H6 & _).
  destruct (index_from 0 (lower wd3) weekday_abbrs) as [wi|] eqn:Hwi;
    [clear Hwd|congruence].
  apply take3_app in H1 as [H1 Hne1]. apply take3_app in H4 as [H4 Hne4].
  apply expect_comma_eq in H2.
  apply skip_ws1_eq in H3 as (c1 & s1 & H3 & Hc1 & Hr3).
  apply skip_ws1_eq in H6 as (c2 & s2 & H6 & Hc2 & _).
  assert (Hw : has_space wd3 = false)
    by (apply (name_no_space 0 wd3 weekday_abbrs wi); [reflexivity|exact Hwi]).
  assert (Hm : has_space mo3 = false)
    by (apply (name_no_space 1 mo3 month_abbrs (month d));
        [reflexivity|exact H5]).
  assert (Hfields : split_ws (text ++ z)
                    = (wd3 ++ ",") :: mo3 :: split_ws s2).
  { rewrite H1, H2, H3.
    change (wd3 ++ String ","%char (String c1 s1))
      with (wd3 ++ ("," ++ String c1 s1)).
    rewrite <- string_app_assoc.
    rewrite split_ws_word;
      [|destruct wd3; [congruence|discriminate]
       |apply has_space_snoc_comma, Hw|exact Hc1].
    rewrite <- split_ws_lstrip, <- Hr3, H4, H6.
    rewrite split_ws_word by assumption. reflexivity. }
  destruct (split_ws_app_first text z wd mo dy [] Hsplit) as [ts' Hts].
  rewrite Hfields in Hts. injection Hts as _ Hmo _. subst mo3. exact H5.
Qed.

(** ** The fetcher *)

Lemma one_game_date (d : py_date) (t o : string) (h w : bool)
    (s : list Z) (g : Game) :
  one_game d t o h w s = Ok g -> date g = d.
Proof.
  unfold one_game. destruct s as [|s0 [|s1 [|]]]; try discriminate.
  intros [= <-]. reflexivity.
Qed.

Ltac result_step H :=
  match type of H with
  | context [bind ?r _] =>
      let E := fresh "E" in
      destruct r as [?|?] eqn:E; cbn [bind] in H; [|discriminate H]
  end.

Section FetcherFacts.

Variable scorer : string -> string -> Z.
Variable remote : string -> result page.

(** The date of a game built by [row_head]: year and month agree with the
    season rule. *)
Lemma row_head_date (season : Z) (team : string) (row : tr)
    (d : py_date) (t o : string) :
  row_head scorer season team row = Ok (d, t, o) ->
  year d = season_year season (month d).
Proof.
  unfold row_head.
  destruct row as [|dc [|oc [|rc other]]]; try discriminate.
  destruct (split_ws (td_text dc)) as [|wd [|mo [|dy [|]]]] eqn:Hs;
    try discriminate.
  intros H. result_step H. result_step H. result_step H.
  result_step H. result_step H. injection H as -> _ _.
  unfold strptime_b in E.
  destruct (index_from 1 (lower mo) month_abbrs) as [m|] eqn:Hm;
    [|discriminate E].
  injection E as ->.
  pose proof (strptime_abdY_month _ _ _ _ _ _ Hs E0) as Hmonth.
  rewrite Hm in Hmonth. injection Hmonth as ->.
  exact (strptime_abdY_year _ _ _ E0).
Qed.

Lemma row_game_date (season : Z) (team team' : string) (row : tr)
    (g : Game) :
  row_game scorer season team row = (team', Ok g) ->
  year (date g) = season_year season (month (date g)).
Proof.
  unfold row_game.
  destruct (row_head scorer season team row) as [[[d t] o]|e] eqn:Hh;
    [|discriminate].
  intros [= _ Ht]. unfold row_tail in Ht.
  destruct row as [|dc [|oc [|rc other]]]; try discriminate.
  result_step Ht. result_step Ht. result_step Ht. result_step Ht.
  apply one_game_date in Ht. rewrite Ht.
  exact (row_head_date _ _ _ _ _ _ Hh).
Qed.

Lemma fetch_rows_date (season : Z) (entries : list tr) :
  forall team g,
    In g (fst (fetch_rows scorer season team entries)) ->
    year (date g) = season_year season (month (date g)).
Proof.
  induction entries as [|row entries IH]; intros team g; cbn [fetch_rows].
  - intros [].
  - destruct (row_game scorer season team row) as [team' [g'|e]] eqn:Hr.
    + destruct (fetch_rows scorer season team' entries) as [gs e'] eqn:Hf.
      cbn [fst]. intros [<-|Hin].
      * exact (row_game_date _ _ _ _ _ Hr).
      * apply (IH team'). rewrite Hf. exact Hin.
    + destruct (caught e); [apply IH|intros []].
Qed.

Lemma fetch_games_date (team : string) (season : Z) (g : Game) :
  In g (fst (fetch_games scorer remote team season)) ->
  year (date g) = season_year season (month (date g)).
Proof.
  unfold fetch_games.
  destruct (abbr scorer team true) as [name|e]; [|intros []].
  destruct (remote (BASEURL name season)) as [[rows|]|e];
    try (intros []).
  apply fetch_rows_date.
Qed.

End FetcherFacts.

Lemma fetch_page_2021 :
  fetch_games exact_scorer (serve page_2021) "BOS" 2021
    = ([game_nov_10; game_jan_15], None).
Proof. vm_compute. reflexivity. Qed.

Lemma page_2021_yields_nov :
  In game_nov_10 (fst (fetch_games exact_scorer (serve page_2021) "BOS" 2021)).
Proof. rewrite fetch_page_2021. left. reflexivity. Qed.

Lemma page_2021_yields_jan :
  In game_jan_15 (fst (fetch_games exact_scorer (serve page_2021) "BOS" 2021)).
Proof. rewrite fetch_page_2021. right. left. reflexivity. Qed.

(** C5 (as stated): a game in July or later would get the season as its
    year and an earlier one the year before.  The game of November 10 of
    season 2021 is given the year 2020. *)
Lemma season_year_as_stated_refuted :
  ~ (forall scorer remote team season g,
       In g (fst (fetch_games scorer remote team season)) ->
       year (date g)
         = (if 7 <=? month (date g) then season else season - 1)).
Proof.
  intros H.
  specialize (H exact_scorer (serve page_2021) "BOS" 2021 game_nov_10
                page_2021_yields_nov).
  discriminate H.
Qed.

(** C5 (amended): every game the fetcher yields for season [s] has the year
    [s] when its month is before July and [s - 1] when its month is July
    or later. *)
Theorem fetch_games_season_year :
  forall scorer remote team season g,
    In g (fst (fetch_games scorer remote team season)) ->
    year (date g) = (if month (date g) <? 7 then season else season - 1).
Proof.
  intros scorer remote t season g H.
  exact (fetch_games_date scorer remote t season g H).
Qed.

Lemma fetch_games_season_year_witness :
  year (date game_nov_10) = 2021 - 1.
Proof.
  exact (fetch_games_season_year exact_scorer (serve page_2021) "BOS" 2021
           game_nov_10 page_2021_yields_nov).
Defined.

(** A row whose parsing raises [ValueError] or [AttributeError] yields
    nothing and the loop goes on with the rows after it. *)
Lemma fetch_rows_skips_caught (scorer : string -> string -> Z) (season : Z)
    (team team' : string) (row : tr) (entries : list tr) (e : exn) :
  row_game scorer season team row = (team', Raise e) ->
  caught e = true ->
  fetch_rows scorer season team (row :: entries)
    = fetch_rows scorer season team' entries.
Proof.
  intros Hr Hc. cbn [fetch_rows]. rewrite Hr, Hc. reflexivity.
Qed.

(** Any other exception ends the generator: the games of the rows before
    are all it yields. *)
Lemma fetch_rows_stops_uncaught (scorer : string -> string -> Z) (season : Z)
    (team team' : string) (row : tr) (entries : list tr) (e : exn) :
  row_game scorer season team row = (team', Raise e) ->
  caught e = false ->
  fetch_rows scorer season team (row :: entries) = ([], Some e).
Proof.
  intros Hr Hc. cbn [fetch_rows]. rewrite Hr, Hc. reflexivity.
Qed.

(** Two played games around a postponed one: two records, in row order. *)
Lemma fetch_page_2020_postponed :
  fetch_games exact_scorer (serve page_2020_postponed) "BOS" 2020
    = ([game_oct_23; game_oct_26], None).
Proof. vm_compute. reflexivity. Qed.

(** C7 (the code at the failing input): a row with a single link in its
    opponent cell is not skipped; reading the second link raises
    [IndexError], which the loop does not catch, so the generator ends with
    that exception after the first game and the row after it is never
    read. *)
Theorem fetch_games_unlinked_row_raises :
  fetch_games exact_scorer (serve page_2020_unlinked) "BOS" 2020
    = ([game_oct_23], Some IndexError)
  /\ list_fetch_games exact_scorer (serve page_2020_unlinked) "BOS" 2020
    = Raise IndexError.
Proof. split; vm_compute; reflexivity. Qed.

(** ** The reader *)

Lemma date_ltb_iff (a b : py_date) :
  date_ltb a b = true <->
  year a < year b \/
  (year a = year b /\
   (month a < month b \/ (month a = month b /\ day a < day b))).
Proof.
  unfold date_ltb.
  rewrite !orb_true_iff, !andb_true_iff, !orb_true_iff, !andb_true_iff,
    !Z.ltb_lt, !Z.eqb_eq.
  tauto.
Qed.

Lemma date_ltb_false_iff (a b : py_date) :
  date_ltb a b = false <->
  ~ (year a < year b \/
     (year a = year b /\
      (month a < month b \/ (month a = month b /\ day a < day b)))).
Proof.
  rewrite <- date_ltb_iff. destruct (date_ltb a b); split; congruence.
Qed.

Lemma date_le_trans (a b c : Game) : date_le a b -> date_le b c -> date_le a c.
Proof. unfold date_le. rewrite !date_ltb_false_iff. lia. Qed.

Lemma date_le_of_lt (a b : Game) :
  date_ltb (date a) (date b) = true -> date_le a b.
Proof. unfold date_le. rewrite date_ltb_iff, date_ltb_false_iff. lia. Qed.

Lemma insert_by_date_perm (g : Game) (l : list Game) :
  Permutation (insert_by_date g l) (g :: l).
Proof.
  induction l as [|h l IH]; cbn; [reflexivity|].
  destruct (date_ltb (date h) (date g)); [|reflexivity].
  rewrite IH. apply perm_swap.
Qed.

Lemma sorted_by_date_perm (l : list Game) : Permutation (sorted_by_date l) l.
Proof.
  induction l as [|g l IH]; cbn; [reflexivity|].
  rewrite insert_by_date_perm. constructor. exact IH.
Qed.

Lemma insert_by_date_sorted (g : Game) (l : list Game) :
  StronglySorted date_le l -> StronglySorted date_le (insert_by_date g l).
Proof.
  induction 1 as [|h l Hl IH Hh]; cbn; [repeat constructor|].
  destruct (date_ltb (date h) (date g)) eqn:Hlt.
  - constructor; [exact IH|].
    apply Forall_forall. intros x Hx.
    apply (Permutation_in _ (insert_by_date_perm g l)) in Hx.
    destruct Hx as [<-|Hx].
    + apply date_le_of_lt, Hlt.
    + rewrite Forall_forall in Hh. apply Hh, Hx.
  - constructor; [constructor; assumption|].
    constructor; [exact Hlt|].
    apply Forall_forall. intros x Hx. rewrite Forall_forall in Hh.
    apply (date_le_trans g h x); [exact Hlt|apply Hh, Hx].
Qed.

Lemma sorted_by_date_sorted (l : list Game) :
  StronglySorted date_le (sorted_by_date l).
Proof.
  induction l as [|g l IH]; cbn; [constructor|].
  apply insert_by_date_sorted, IH.
Qed.

Lemma map_result_ok {A B : Type} (f : A -> result B) (g : A -> B)
    (l : list A) :
  (forall x, In x l -> f x = Ok (g x)) -> map_result f l = Ok (map g l).
Proof.
  induction l as [|a l IH]; intros H; cbn; [reflexivity|].
  rewrite (H a (or_introl eq_refl)). cbn.
  rewrite IH by (intros x Hx; apply H; right; exact Hx). reflexivity.
Qed.

Lemma map_result_raise {A B : Type} (f : A -> result B) (e : exn)
    (l : list A) :
  (forall x, In x l -> f x = Raise e \/ exists b, f x = Ok b) ->
  (exists x, In x l /\ f x = Raise e) ->
  map_result f l = Raise e.
Proof.
  induction l as [|a l IH]; intros Hall [x [Hx Hfx]]; [destruct Hx|].
  cbn. destruct (Hall a (or_introl eq_refl)) as [->|[b Hb]]; [reflexivity|].
  rewrite Hb. cbn. rewrite IH; [reflexivity| |].
  - intros y Hy. apply Hall. right. exact Hy.
  - destruct Hx as [<-|Hx]; [congruence|]. exists x. auto.
Qed.

Lemma complete_cell (games : cache) (y : Z) (t : string) :
  complete games = true -> In y (keys games) -> In t teams ->
  getitem t (season_cells y games) = Ok (cell_games games (t, y)).
Proof.
  unfold complete. rewrite forallb_forall. intros H Hy Ht.
  specialize (H y Hy). rewrite forallb_forall in H. specialize (H t Ht).
  unfold getitem, cell_games, cache_get in *. cbn [fst snd].
  destruct (dget String.eqb t (season_cells y games)); [reflexivity|].
  discriminate H.
Qed.

(** On a complete cache the reader returns the chained cells sorted. *)
Lemma load_games_complete (games : cache) :
  complete games = true ->
  load_games (Some games) = Ok (sorted_by_date (flat_cells games)).
Proof.
  intros H. unfold load_games, flat_cells.
  rewrite (map_result_ok _ (cell_games games)); [reflexivity|].
  intros [t y] Hin. apply in_prod_iff in Hin as [Ht Hy].
  apply complete_cell; assumption.
Qed.

(** A season without a cell for one of the teams makes the reader raise
    [KeyError]. *)
Lemma load_games_incomplete (games : cache) :
  complete games = false -> load_games (Some games) = Raise KeyError.
Proof.
  intros H. unfold load_games.
  rewrite (map_result_raise _ KeyError); [reflexivity| |].
  - intros [t y] _. unfold getitem.
    destruct (dget String.eqb t (season_cells y games)); eauto.
  - unfold complete in H.
    assert (Hex : exists y, In y (keys games) /\ exists t, In t teams /\
              cache_get y t games = None).
    { induction (keys games) as [|y ys IH]; [discriminate H|].
      cbn [forallb] in H. apply andb_false_elim in H as [H|H].
      - exists y. split; [left; reflexivity|].
        clear IH. induction teams as [|t ts IHt]; [discriminate H|].
        cbn [forallb] in H.
        destruct (cache_get y t games) eqn:Hc.
        + destruct (IHt H) as [t' [Ht' Hn]]. exists t'. split; [right|]; auto.
        + exists t. split; [left; reflexivity|exact Hc].
      - destruct (IH H) as [y' [Hy' Ht]]. exists y'. split; [right|]; auto. }
    destruct Hex as [y [Hy [t [Ht Hc]]]].
    exists (t, y). split; [apply in_prod; assumption|].
    unfold getitem. unfold cache_get in Hc. rewrite Hc. reflexivity.
Qed.

(** *** The order of the season keys *)

Lemma distinct_keys_nodup (games : cache) :
  distinct_keys games = true -> NoDup (keys games).
Proof.
  induction games as [|[y c] games IH]; cbn; [constructor|].
  intros H. apply andb_prop in H as [Hy H].
  constructor; [|exact (IH H)].
  intros Hin. apply negb_true_iff in Hy.
  assert (Ht : existsb (Z.eqb y) (keys games) = true)
    by (apply existsb_exists; exists y; split; [exact Hin|apply Z.eqb_refl]).
  congruence.
Qed.

Lemma dget_in (games : cache) (y : Z) (c : dict string (list Game)) :
  NoDup (keys games) -> In (y, c) games -> dget Z.eqb y games = Some c.
Proof.
  induction games as [|[y' c'] games IH]; cbn; [intros _ []|].
  intros Hnd [[= -> ->]|Hin].
  - rewrite Z.eqb_refl. reflexivity.
  - inversion Hnd as [|? ? Hy' Hnd']; subst.
    destruct (Z.eqb_spec y y') as [->|_]; [|exact (IH Hnd' Hin)].
    exfalso. apply Hy'. apply in_map_iff. exists (y', c). auto.
Qed.

Lemma dget_some_in (games : cache) (y : Z) (c : dict string (list Game)) :
  dget Z.eqb y games = Some c -> In (y, c) games.
Proof.
  induction games as [|[y' c'] games IH]; cbn; [discriminate|].
  destruct (Z.eqb_spec y y') as [->|_]; [intros [= ->]; auto|].
  intros H. right. exact (IH H).
Qed.

Lemma dget_perm (games games' : cache) (y : Z) :
  NoDup (keys games) -> Permutation games games' ->
  dget Z.eqb y games = dget Z.eqb y games'.
Proof.
  intros Hnd Hp.
  assert (Hnd' : NoDup (keys games'))
    by (unfold keys; eapply Permutation_NoDup;
        [apply Permutation_map; exact Hp|exact Hnd]).
  destruct (dget Z.eqb y games) as [c|] eqn:H1.
  - apply dget_some_in in H1. apply (Permutation_in _ Hp) in H1.
    symmetry. apply dget_in; assumption.
  - destruct (dget Z.eqb y games') as [c|] eqn:H2; [|reflexivity].
    apply dget_some_in in H2.
    apply (Permutation_in _ (Permutation_sym Hp)) in H2.
    rewrite (dget_in _ _ _ Hnd H2) in H1. discriminate H1.
Qed.

Lemma list_prod_perm {A B : Type} (l : list A) (k k' : list B) :
  Permutation k k' -> Permutation (list_prod l k) (list_prod l k').
Proof.
  intros Hp. induction l as [|a l IH]; cbn; [constructor|].
  apply Permutation_app; [apply Permutation_map; exact Hp|exact IH].
Qed.

(** Whatever the order of the season keys, the chained cells hold the same
    games. *)
Lemma flat_cells_perm (games games' : cache) :
  distinct_keys games = true -> Permutation games games' ->
  Permutation (flat_cells games) (flat_cells games').
Proof.
  intros Hd Hp. apply distinct_keys_nodup in Hd.
  unfold flat_cells. rewrite <- !flat_map_concat_map.
  rewrite (flat_map_ext (cell_games games) (cell_games games')).
  - apply Permutation_flat_map, list_prod_perm.
    unfold keys. apply Permutation_map. exact Hp.
  - intros [t y]. unfold cell_games, cache_get, season_cells. cbn [fst snd].
    rewrite (dget_perm games games' y Hd Hp). reflexivity.
Qed.

Lemma complete_perm (games games' : cache) :
  distinct_keys games = true -> Permutation games games' ->
  complete games = true -> complete games' = true.
Proof.
  intros Hd Hp. pose proof (distinct_keys_nodup _ Hd) as Hnd.
  unfold complete. rewrite !forallb_forall. intros H y Hy.
  assert (Hy' : In y (keys games)).
  { unfold keys in *. eapply Permutation_in; [|exact Hy].
    apply Permutation_map, Permutation_sym, Hp. }
  specialize (H y Hy'). rewrite forallb_forall in *. intros t Ht.
  specialize (H t Ht). unfold cache_get, season_cells in *.
  rewrite <- (dget_perm games games' y Hnd Hp). exact H.
Qed.

Lemma date_le_antisym (a b : Game) :
  date_le a b -> date_le b a -> date a = date b.
Proof.
  unfold date_le. rewrite !date_ltb_false_iff.
  destruct (date a) as [ya ma da], (date b) as [yb mb db]. cbn.
  intros H1 H2.
  assert (ya = yb) by lia. assert (ma = mb) by lia. assert (da = db) by lia.
  congruence.
Qed.

(** Two sorted sequences of the same games are equal when no two games
    share a date. *)
Lemma sorted_by_date_unique (l l' : list Game) :
  StronglySorted date_le l -> StronglySorted date_le l' ->
  Permutation l l' -> NoDup (map date l) -> l = l'.
Proof.
  intros Hs. revert l'.
  induction Hs as [|a t Ht IH Ha]; intros l' Hs' Hp Hnd.
  - apply Permutation_nil in Hp. congruence.
  - destruct l' as [|b t'];
      [apply Permutation_sym, Permutation_nil in Hp; discriminate|].
    inversion Hs' as [|? ? Ht' Hb]; subst.
    inversion Hnd as [|? ? Hna Hnt]; subst.
    rewrite Forall_forall in Ha, Hb.
    assert (Hab : a = b).
    { assert (Hin : In b (a :: t))
        by (apply (Permutation_in _ (Permutation_sym Hp)); left; reflexivity).
      destruct Hin as [Hin|Hin]; [exact Hin|]. exfalso.
      assert (Hin' : In a (b :: t'))
        by (apply (Permutation_in _ Hp); left; reflexivity).
      destruct Hin' as [Hin'|Hin'].
      - subst b. apply Hna, in_map, Hin.
      - apply Hna. rewrite (date_le_antisym a b (Ha b Hin) (Hb a Hin')).
        apply in_map, Hin. }
    subst b. f_equal.
    apply IH; [exact Ht'|exact (Permutation_cons_inv Hp)|exact Hnt].
Qed.

(** C8 (as stated): the scenario cache of the spec, with a cell for Boston
    only in each season, would be read as its three games.  The reader
    looks up every team of the alias table in every season and raises
    [KeyError] at the first missing cell, here Atlanta's. *)
Lemma load_games_boston_only_refuted :
  load_games (Some boston_only_cache)
    <> Ok [game_2018_10_16; game_2018_10_19; game_oct_23]
  /\ load_games (Some boston_only_cache) = Raise KeyError.
Proof. split; [vm_compute; discriminate|vm_compute; reflexivity]. Qed.

(** C8 (amended): on a cache in which every cached season has a cell for
    each of the 30 teams, the reader returns the games of all cells in one
    sequence sorted by date ascending (the stable sort of the cells chained
    team by team); the same cache with its season keys in another order
    gives a sorted sequence of the same games, and the very same sequence
    when no two games share a date; and the scenario cache, completed with
    empty cells for the other teams, yields [g1, g2, g3] in either order of
    its two seasons. *)
Theorem load_games_sorted :
  forall games : cache,
    complete games = true ->
    exists l,
      load_games (Some games) = Ok l /\
      l = sorted_by_date (flat_cells games) /\
      StronglySorted date_le l /\
      Permutation l (flat_cells games) /\
      (forall games',
         distinct_keys games = true -> Permutation games games' ->
         exists l',
           load_games (Some games') = Ok l' /\
           StronglySorted date_le l' /\ Permutation l l' /\
           (NoDup (map date (flat_cells games)) -> l' = l)) /\
      load_games (Some full_cache)
        = Ok [game_2018_10_16; game_2018_10_19; game_oct_23] /\
      load_games (Some full_cache_swapped)
        = Ok [game_2018_10_16; game_2018_10_19; game_oct_23].
Proof.
  intros games Hc. exists (sorted_by_date (flat_cells games)).
  split; [apply load_games_complete, Hc|].
  split; [reflexivity|].
  split; [apply sorted_by_date_sorted|].
  split; [apply sorted_by_date_perm|].
  split; [|split; vm_compute; reflexivity].
  intros games' Hd Hp. exists (sorted_by_date (flat_cells games')).
  assert (Hperm : Permutation (sorted_by_date (flat_cells games))
                    (sorted_by_date (flat_cells games')))
    by (rewrite !sorted_by_date_perm; apply flat_cells_perm; assumption).
  split; [apply load_games_complete, (complete_perm games); assumption|].
  split; [apply sorted_by_date_sorted|].
  split; [exact Hperm|].
  intros Hnd. symmetry.
  apply sorted_by_date_unique;
    [apply sorted_by_date_sorted|apply sorted_by_date_sorted|exact Hperm|].
  eapply Permutation_NoDup; [|exact Hnd].
  apply Permutation_map, Permutation_sym, sorted_by_date_perm.
Qed.

Lemma load_games_sorted_witness :
  exists l,
    load_games (Some full_cache) = Ok l /\
    l = sorted_by_date (flat_cells full_cache) /\
    StronglySorted date_le l /\
    Permutation l (flat_cells full_cache) /\
    (forall games',
       distinct_keys full_cache = true -> Permutation full_cache games' ->
       exists l',
         load_games (Some games') = Ok l' /\
         StronglySorted date_le l' /\ Permutation l l' /\
         (NoDup (map date (flat_cells full_cache)) -> l' = l)) /\
    load_games (Some full_cache)
      = Ok [game_2018_10_16; game_2018_10_19; game_oct_23] /\
    load_games (Some full_cache_swapped)
      = Ok [game_2018_10_16; game_2018_10_19; game_oct_23].
Proof.
  apply (load_games_sorted full_cache). vm_compute. reflexivity.
Defined.

(** ** Dictionaries *)

Section DictFacts.

Context {K V : Type}.
Variable eqb : K -> K -> bool.
Hypothesis eqb_spec : forall a b, reflect (a = b) (eqb a b).

Lemma dget_dset_eq (k : K) (v : V) (d : dict K V) :
  dget eqb k (dset eqb k v d) = Some v.
Proof.
  induction d as [|[k' v'] d IH]; cbn.
  - destruct (eqb_spec k k); [reflexivity|congruence].
  - destruct (eqb_spec k k') as [->|Hne]; cbn.
    + destruct (eqb_spec k' k'); [reflexivity|congruence].
    + destruct (eqb_spec k k'); [congruence|exact IH].
Qed.

Lemma dget_dset_ne (k k0 : K) (v : V) (d : dict K V) :
  k0 <> k -> dget eqb k0 (dset eqb k v d) = dget eqb k0 d.
Proof.
  intros Hne. induction d as [|[k' v'] d IH]; cbn.
  - destruct (eqb_spec k0 k); [congruence|reflexivity].
  - destruct (eqb_spec k k') as [->|Hk]; cbn.
    + destruct (eqb_spec k0 k'); [congruence|reflexivity].
    + destruct (eqb_spec k0 k'); [reflexivity|exact IH].
Qed.

(** Writing the value a key already has changes nothing. *)
Lemma dset_same (k : K) (v : V) (d : dict K V) :
  dget eqb k d = Some v -> dset eqb k v d = d.
Proof.
  induction d as [|[k' v'] d IH]; cbn; [discriminate|].
  destruct (eqb_spec k k') as [->|Hne].
  - intros [= ->]. reflexivity.
  - intros H. rewrite (IH H). reflexivity.
Qed.

Lemma keys_dset (k : K) (v : V) (d : dict K V) :
  keys (dset eqb k v d)
    = match dget eqb k d with
      | Some _ => keys d
      | None => (keys d ++ [k])%list
      end.
Proof.
  induction d as [|[k' v'] d IH]; cbn; [reflexivity|].
  destruct (eqb_spec k k') as [->|Hne]; cbn; [reflexivity|].
  unfold keys in IH. rewrite IH.
  destruct (dget eqb k d); reflexivity.
Qed.

End DictFacts.

Lemma cache_get_set_eq (s : Z) (t : string) (v : list Game) (g : cache) :
  cache_get s t (cache_set s t v g) = Some v.
Proof.
  unfold cache_get, cache_set, season_cells at 1.
  rewrite (dget_dset_eq Z.eqb Z.eqb_spec).
  apply (dget_dset_eq String.eqb String.eqb_spec).
Qed.

Lemma cache_get_set_ne (s s0 : Z) (t t0 : string) (v : list Game)
    (g : cache) :
  (s0, t0) <> (s, t) ->
  cache_get s0 t0 (cache_set s t v g) = cache_get s0 t0 g.
Proof.
  intros Hne. unfold cache_get, cache_set, season_cells at 1.
  destruct (Z.eq_dec s0 s) as [->|Hs].
  - rewrite (dget_dset_eq Z.eqb Z.eqb_spec).
    apply (dget_dset_ne String.eqb String.eqb_spec). congruence.
  - rewrite (dget_dset_ne Z.eqb Z.eqb_spec) by exact Hs. reflexivity.
Qed.

Lemma cache_set_same (s : Z) (t : string) (v : list Game) (g : cache) :
  cache_get s t g = Some v -> cache_set s t v g = g.
Proof.
  unfold cache_get, cache_set, season_cells.
  destruct (dget Z.eqb s g) as [cells|] eqn:Hs; [|discriminate].
  intros H. rewrite (dset_same String.eqb String.eqb_spec _ _ _ H).
  apply (dset_same Z.eqb Z.eqb_spec). exact Hs.
Qed.

Lemma keys_cache_set (s : Z) (t : string) (v : list Game) (g : cache)
    (k : Z) :
  In k (keys (cache_set s t v g)) <-> In k (keys g) \/ k = s.
Proof.
  unfold cache_set. rewrite (keys_dset Z.eqb Z.eqb_spec).
  destruct (dget Z.eqb s g) as [cells|] eqn:Hs.
  - split; [auto|]. intros [H| ->]; [exact H|].
    apply dget_some_in in Hs. apply in_map_iff. exists (s, cells). auto.
  - rewrite in_app_iff. cbn. intuition congruence.
Qed.

(** ** The updater *)

Section UpdaterFacts.

Variable scorer : string -> string -> Z.
Variable remote : string -> result page.

Let fetch := list_fetch_games scorer remote.

Lemma write_cells_snoc (l : list (Z * alias_row)) (c : Z * alias_row)
    (games : cache) :
  write_cells fetch (l ++ [c]) games
    = write_cell fetch (write_cells fetch l games) c.
Proof. unfold write_cells. rewrite fold_left_app. reflexivity. Qed.

(** A cell that was written holds what was fetched for it. *)
Lemma write_cells_get_in (l : list (Z * alias_row)) (games : cache)
    (c : Z * alias_row) :
  Forall (fetched fetch) l -> In c l ->
  exists value, fetch_cell fetch c = Ok value /\
    cache_get (fst c) (std (snd c)) (write_cells fetch l games)
      = Some value.
Proof.
  induction l as [|c' l IH] using rev_ind; intros Hall Hin;
    [destruct Hin|].
  apply Forall_app in Hall as [Hall Hc']. inversion Hc' as [|? ? Hf _].
  destruct Hf as [v' Hv']. rewrite write_cells_snoc.
  unfold write_cell. rewrite Hv'.
  destruct (Z.eq_dec (fst c) (fst c')) as [Hs|Hs];
    [destruct (string_dec (std (snd c)) (std (snd c'))) as [Ht|Ht]|].
  - exists v'. split.
    + unfold fetch_cell in *. rewrite Hs, Ht. exact Hv'.
    + rewrite Hs, Ht. apply cache_get_set_eq.
  - apply in_app_or in Hin as [Hin|[<-|[]]]; [|congruence].
    destruct (IH Hall Hin) as [v [Hv Hg]]. exists v. split; [exact Hv|].
    rewrite cache_get_set_ne by congruence. exact Hg.
  - apply in_app_or in Hin as [Hin|[<-|[]]]; [|congruence].
    destruct (IH Hall Hin) as [v [Hv Hg]]. exists v. split; [exact Hv|].
    rewrite cache_get_set_ne by congruence. exact Hg.
Qed.

(** A cell that was not written is as it was. *)
Lemma write_cells_get_out (l : list (Z * alias_row)) (games : cache)
    (s : Z) (t : string) :
  (forall c, In c l -> (fst c, std (snd c)) <> (s, t)) ->
  cache_get s t (write_cells fetch l games) = cache_get s t games.
Proof.
  induction l as [|c' l IH] using rev_ind; intros Hout; [reflexivity|].
  rewrite write_cells_snoc. unfold write_cell.
  assert (Hl : forall c, In c l -> (fst c, std (snd c)) <> (s, t))
    by (intros c Hc; apply Hout, in_or_app; auto).
  destruct (fetch_cell fetch c'); [|exact (IH Hl)].
  rewrite cache_get_set_ne; [exact (IH Hl)|].
  intros H. apply (Hout c'); [apply in_or_app; right; left; reflexivity|].
  congruence.
Qed.

(** Writing cells that already hold what is fetched changes nothing. *)
Lemma write_cells_same (l : list (Z * alias_row)) (games : cache) :
  (forall c, In c l -> exists value, fetch_cell fetch c = Ok value /\
     cache_get (fst c) (std (snd c)) games = Some value) ->
  write_cells fetch l games = games.
Proof.
  induction l as [|c l IH]; intros H; [reflexivity|].
  unfold write_cells. cbn [fold_left].
  destruct (H c (or_introl eq_refl)) as [v [Hv Hg]].
  unfold write_cell at 2. rewrite Hv, (cache_set_same _ _ _ _ Hg).
  apply IH. intros c' Hc'. apply H. right. exact Hc'.
Qed.

Lemma keys_write_cells (l : list (Z * alias_row)) (games : cache) (k : Z) :
  Forall (fetched fetch) l ->
  In k (keys (write_cells fetch l games)) <->
  In k (keys games) \/ exists c, In c l /\ fst c = k.
Proof.
  induction l as [|c' l IH] using rev_ind; intros Hall.
  - cbn. split; [auto|]. intros [H|[c [[] _]]]. exact H.
  - apply Forall_app in Hall as [Hall Hc']. inversion Hc' as [|? ? Hf _].
    destruct Hf as [v' Hv']. rewrite write_cells_snoc.
    unfold write_cell. rewrite Hv', keys_cache_set, (IH Hall).
    split.
    + intros [[Hk|[c [Hc Hk]]]| ->]; [auto| |].
      * right. exists c. split; [apply in_or_app; auto|exact Hk].
      * right. exists c'. split; [apply in_or_app; cbn; auto|reflexivity].
    + intros [Hk|[c [Hc Hk]]]; [auto|].
      apply in_app_or in Hc as [Hc|[<-|[]]]; [|auto].
      left. right. exists c. auto.
Qed.

(** The loop over cells that are all fetched, followed by more cells. *)
Lemma run_cells_app (l r : list (Z * alias_row)) :
  forall games disk,
    Forall (fetched fetch) l ->
    run_cells scorer remote (l ++ r) games disk
      = run_cells scorer remote r (write_cells fetch l games)
          (match l with
           | [] => disk
           | _ => Some (write_cells fetch l games)
           end).
Proof.
  induction l as [|[s row] l IH]; intros games disk Hall; [reflexivity|].
  inversion Hall as [|? ? [v Hv] Hall']; subst.
  cbn [app run_cells]. unfold fetch_cell, fetch in Hv. cbn [fst snd] in Hv.
  rewrite Hv, (IH _ _ Hall').
  assert (Hw : write_cells fetch ((s, row) :: l) games
               = write_cells fetch l (cache_set s (std row) v games)).
  { unfold write_cells. cbn [fold_left]. unfold write_cell at 2.
    unfold fetch_cell, fetch. cbn [fst snd]. rewrite Hv. reflexivity. }
  rewrite Hw. destruct l; reflexivity.
Qed.

Lemma completed_fetched (l : list (Z * alias_row)) :
  Forall (fetched fetch) (completed fetch l).
Proof.
  induction l as [|c l IH]; cbn; [constructor|].
  destruct (fetch_cell fetch c) as [v|e] eqn:Hc; constructor; [|exact IH].
  exists v. exact Hc.
Qed.

(** The cells split into the completed ones and, if the loop does not
    reach the end, a cell whose fetch raises and the cells after it. *)
Lemma completed_split (l : list (Z * alias_row)) :
  exists rest, l = (completed fetch l ++ rest)%list /\
    (rest = [] \/
     exists c r e, rest = c :: r /\ fetch_cell fetch c = Raise e).
Proof.
  induction l as [|c l IH]; cbn.
  - exists []. auto.
  - destruct (fetch_cell fetch c) as [v|e] eqn:Hc.
    + destruct IH as [rest [Hl Hr]]. exists rest. split; [|exact Hr].
      cbn. f_equal. exact Hl.
    + exists (c :: l). split; [reflexivity|]. right. exists c, l, e. auto.
Qed.

Lemma completed_all (l : list (Z * alias_row)) :
  Forall (fetched fetch) l -> completed fetch l = l.
Proof.
  induction 1 as [|c l [v Hv] _ IH]; cbn; [reflexivity|].
  rewrite Hv, IH. reflexivity.
Qed.

Lemma completed_app (a b : list (Z * alias_row)) :
  Forall (fetched fetch) a ->
  completed fetch (a ++ b) = (a ++ completed fetch b)%list.
Proof.
  induction 1 as [|c l [v Hv] _ IH]; cbn; [reflexivity|].
  rewrite Hv, IH. reflexivity.
Qed.

(** The file after the loop: the cache with the completed cells written,
    or the file as it was when not one cell was completed. *)
Lemma run_cells_completed (l : list (Z * alias_row)) (games : cache)
    (disk : option cache) :
  fst (run_cells scorer remote l games disk)
    = match completed fetch l with
      | [] => disk
      | _ => Some (write_cells fetch (completed fetch l) games)
      end.
Proof.
  destruct (completed_split l) as [rest [Hl Hr]].
  rewrite Hl at 1. rewrite run_cells_app by apply completed_fetched.
  destruct Hr as [->|(c & r & e & -> & Hc)]; [reflexivity|].
  destruct c as [s row]. cbn [run_cells].
  unfold fetch_cell, fetch in Hc. cbn [fst snd] in Hc. rewrite Hc.
  reflexivity.
Qed.

End UpdaterFacts.

(** C3: in a run of [update], once the loop has fetched and written the
    cells [done] (a prefix of its iteration over seasons and teams), the
    cache file holds the cache the run started from with exactly those
    cells overwritten by what was fetched for them: every cell of [done]
    has its fetched games, every other cell is as in the starting cache
    (the loaded one, or empty).  When no cell is completed the file is
    untouched.  A fetch that raises at the next cell ends the run with the
    file in that state, and nothing of the unfinished cell in it. *)
Theorem update_checkpoints :
  forall scorer remote now_year now_month disk rebuild seasons games
         done rest,
    update_plan now_year now_month disk rebuild = Ok (seasons, games) ->
    update_cells seasons = (done ++ rest)%list ->
    Forall (fetched (list_fetch_games scorer remote)) done ->
    let persisted :=
      write_cells (list_fetch_games scorer remote) done games in
    let file :=
      match done with [] => disk | _ => Some persisted end in
    fst (run_cells scorer remote done games disk) = file /\
    (forall c, In c done ->
       exists value,
         list_fetch_games scorer remote (std (snd c)) (fst c) = Ok value /\
         cache_get (fst c) (std (snd c)) persisted = Some value) /\
    (forall s t,
       (forall c, In c done -> (fst c, std (snd c)) <> (s, t)) ->
       cache_get s t persisted = cache_get s t games) /\
    (forall c r e,
       rest = c :: r ->
       list_fetch_games scorer remote (std (snd c)) (fst c) = Raise e ->
       update scorer remote now_year now_month disk rebuild
         = (file, Some e)) /\
    (rest = [] ->
       update scorer remote now_year now_month disk rebuild = (file, None)).
Proof.
  intros scorer remote y m disk rebuild seasons games done rest
    Hplan Hcells Hdone persisted file.
  assert (Hrun : forall r,
            run_cells scorer remote (done ++ r) games disk
              = run_cells scorer remote r persisted file)
    by (intros r; apply run_cells_app, Hdone).
  split; [|split; [|split; [|split]]].
  - specialize (Hrun []). rewrite app_nil_r in Hrun. rewrite Hrun.
    reflexivity.
  - intros c Hc. exact (write_cells_get_in scorer remote done games c Hdone Hc).
  - intros s t Hout. apply write_cells_get_out. exact Hout.
  - intros [s row] r e -> He. unfold update. rewrite Hplan.
    fold (update_cells seasons). rewrite Hcells, Hrun.
    cbn [run_cells]. cbn [fst snd] in He. rewrite He. reflexivity.
  - intros ->. unfold update. rewrite Hplan.
    fold (update_cells seasons). rewrite Hcells, Hrun. reflexivity.
Qed.

Lemma cells_done_2003_fetched :
  Forall (fetched (list_fetch_games exact_scorer two_pages_then_down))
    cells_done_2003.
Proof.
  repeat constructor; eexists; vm_compute; reflexivity.
Qed.

(** A first run in January 2003 on a site that fails at the third team:
    the file holds the cells of Atlanta and Brooklyn. *)
Lemma update_checkpoints_witness :
  update exact_scorer two_pages_then_down 2003 1 None false
    = (Some (write_cells (list_fetch_games exact_scorer two_pages_then_down)
               cells_done_2003 []),
       Some ConnectionError).
Proof.
  exact (proj1 (proj2 (proj2 (proj2
           (update_checkpoints exact_scorer two_pages_then_down 2003 1 None
              false [2003] [] cells_done_2003 cells_rest_2003
              eq_refl eq_refl cells_done_2003_fetched))))
           (2003, mkrow "BOS" "bos" "Boston") (skipn 3 (update_cells [2003]))
           ConnectionError eq_refl eq_refl).
Defined.

(** ** Running the updater again *)

Lemma list_prod_app {A B : Type} (l1 l2 : list A) (r : list B) :
  list_prod (l1 ++ l2) r = (list_prod l1 r ++ list_prod l2 r)%list.
Proof.
  induction l1 as [|a l1 IH]; cbn; [reflexivity|].
  rewrite IH, app_assoc. reflexivity.
Qed.

Lemma map_seq_offset (a k : Z) (n : nat) :
  forall i j : nat,
    a + Z.of_nat i = k + Z.of_nat j ->
    map (fun x => a + Z.of_nat x) (seq i n)
      = map (fun x => k + Z.of_nat x) (seq j n).
Proof.
  induction n as [|n IH]; intros i j H; cbn; [reflexivity|].
  f_equal; [exact H|]. apply IH. lia.
Qed.

Lemma py_range_split (a k b : Z) :
  a <= k <= b -> py_range a b = (py_range a k ++ py_range k b)%list.
Proof.
  intros H. unfold py_range.
  replace (Z.to_nat (b - a)) with (Z.to_nat (k - a) + Z.to_nat (b - k))%nat
    by lia.
  rewrite seq_app, map_app. f_equal.
  apply map_seq_offset. lia.
Qed.

Lemma update_cells_season (seasons : list Z) (c : Z * alias_row) :
  In c (update_cells seasons) -> In (fst c) seasons.
Proof.
  destruct c as [s row]. unfold update_cells. intros H.
  apply in_prod_iff in H. apply H.
Qed.

Section SecondRun.

Variable scorer : string -> string -> Z.
Variable remote : string -> result page.

Local Abbreviation fetch := (list_fetch_games scorer remote).

Lemma completed_incl (l : list (Z * alias_row)) :
  incl (completed fetch l) l.
Proof.
  destruct (completed_split scorer remote l) as [rest [Hl _]].
  intros c Hc. rewrite Hl. apply in_or_app. left. exact Hc.
Qed.

(** Either all cells of [a] are fetched, or the completed cells of
    [a ++ b] are among those of [a]. *)
Lemma completed_app_cases (a b : list (Z * alias_row)) :
  completed fetch (a ++ b) = (a ++ completed fetch b)%list \/
  incl (completed fetch (a ++ b)) a.
Proof.
  destruct (completed_split scorer remote a) as [rest [Ha Hr]].
  destruct Hr as [->|(c & r & e & -> & Hc)].
  - left. rewrite app_nil_r in Ha. apply completed_app.
    rewrite Ha. apply completed_fetched.
  - right. rewrite Ha at 1. rewrite <- app_assoc.
    rewrite completed_app by apply completed_fetched.
    cbn [app completed]. rewrite Hc, app_nil_r.
    apply completed_incl.
Qed.

Variable cs : Z.

(** The cells a second run completes were completed by the first: the
    second run starts at the largest season key [m1] of the cache the
    first one leaves, and the first run passed every season before it. *)
Lemma second_run_cells (c0 : cache) (m m1 : Z) :
  (forall k, In k (keys c0) -> k <= m) ->
  (keys c0 = [] \/ In m (keys c0)) ->
  let p1 := completed fetch (update_cells (py_range m (cs + 1))) in
  let g1 := write_cells fetch p1 c0 in
  In m1 (keys g1) ->
  (forall k, In k (keys g1) -> k <= m1) ->
  incl (completed fetch (update_cells (py_range m1 (cs + 1)))) p1.
Proof.
  intros Hle Hm p1 g1 Hin Hmax.
  assert (Hp1 : Forall (fetched fetch) p1) by apply completed_fetched.
  assert (Hkeys := fun k => keys_write_cells scorer remote p1 c0 k Hp1).
   fold g1 in Hkeys.
  destruct (Z.eq_dec m1 m) as [->|Hne]; [apply incl_refl|].
  (* a cell of season [m1] was completed, and [m < m1] *)
  assert (Hcell : exists c, In c p1 /\ fst c = m1).
  { apply Hkeys in Hin as [Hin|Hc]; [|exact Hc]. exfalso.
    destruct Hm as [Hm|Hm]; [rewrite Hm in Hin; destruct Hin|].
    specialize (Hle m1 Hin).
    assert (In m (keys g1)) by (apply Hkeys; auto).
    specialize (Hmax m H). lia. }
  destruct Hcell as [c [Hc Hs]].
  assert (Hrange : m <= m1 <= cs + 1).
  { apply completed_incl, update_cells_season in Hc.
    apply in_py_range in Hc. lia. }
  unfold p1 in *. rewrite (py_range_split m m1 (cs + 1)) in * by lia.
  unfold update_cells in *. rewrite list_prod_app in *.
  fold (update_cells (py_range m m1)) in *.
  fold (update_cells (py_range m1 (cs + 1))) in *.
  destruct (completed_app_cases (update_cells (py_range m m1))
              (update_cells (py_range m1 (cs + 1)))) as [He|Hi].
  - rewrite He. apply incl_appr, incl_refl.
  - exfalso. apply Hi, update_cells_season, in_py_range in Hc. lia.
Qed.

(** A second run that starts from the file of the first leaves it. *)
Lemma second_run_file (c0 : cache) (m : Z) :
  (forall k, In k (keys c0) -> k <= m) ->
  (keys c0 = [] \/ In m (keys c0)) ->
  let g1 := write_cells fetch
              (completed fetch (update_cells (py_range m (cs + 1)))) c0 in
  forall now_year now_month,
    current_season now_year now_month = cs ->
    fst (update scorer remote now_year now_month (Some g1) false)
      = Some g1.
Proof.
  intros Hle Hm g1 y mo Hcs. unfold update, update_plan. rewrite Hcs.
  destruct (keys g1) as [|k ks] eqn:Hk; [reflexivity|].
  cbn [py_max bind]. set (m1 := fold_left Z.max ks k).
  rewrite run_cells_completed.
  fold (update_cells (py_range m1 (cs + 1))).
  assert (Hsame : write_cells fetch
            (completed fetch (update_cells (py_range m1 (cs + 1)))) g1
          = g1).
  { apply write_cells_same. intros c Hc.
    apply (write_cells_get_in scorer remote); [apply completed_fetched|].
    revert c Hc. apply (second_run_cells c0 m m1 Hle Hm).
    - fold g1. rewrite Hk. apply fold_max_in.
    - fold g1. rewrite Hk. intros k'. apply fold_max_upper. }
  rewrite Hsame.
  destruct (completed fetch (update_cells (py_range m1 (cs + 1))));
    reflexivity.
Qed.

End SecondRun.

(** C9: with the remote pages fixed and the clock of both runs in the same
    season, [update] without rebuild run on the file that a first such run
    leaves gives that file again (also when the first run was ended by a
    fetch that raises, or never wrote the file). *)
Theorem update_idempotent :
  forall scorer remote year1 month1 year2 month2 disk,
    current_season year1 month1 = current_season year2 month2 ->
    fst (update scorer remote year2 month2
           (fst (update scorer remote year1 month1 disk false)) false)
    = fst (update scorer remote year1 month1 disk false).
Proof.
  intros scorer remote y mo y2 mo2 disk Hnow.
  set (cs := current_season y mo) in *.
  destruct disk as [c0|].
  - (* a cache file exists *)
    unfold update at 2 3, update_plan. fold cs.
    destruct (keys c0) as [|k ks] eqn:Hk.
    + cbn [py_max bind fst]. unfold update, update_plan. rewrite Hk.
      reflexivity.
    + cbn [py_max bind]. set (m := fold_left Z.max ks k).
      rewrite run_cells_completed.
      fold (update_cells (py_range m (cs + 1))).
      assert (Hfile :
        match completed (list_fetch_games scorer remote)
                (update_cells (py_range m (cs + 1))) with
        | [] => Some c0
        | _ => Some (write_cells (list_fetch_games scorer remote)
                       (completed (list_fetch_games scorer remote)
                          (update_cells (py_range m (cs + 1)))) c0)
        end
        = Some (write_cells (list_fetch_games scorer remote)
                  (completed (list_fetch_games scorer remote)
                     (update_cells (py_range m (cs + 1)))) c0))
        by (destruct (completed (list_fetch_games scorer remote) _);
            reflexivity).
      rewrite Hfile.
      apply (second_run_file scorer remote cs c0 m);
        [| |symmetry; exact Hnow].
      * rewrite Hk. intros k'. apply fold_max_upper.
      * right. rewrite Hk. apply fold_max_in.
  - (* no cache file *)
    unfold update at 2 3, update_plan. fold cs.
    rewrite run_cells_completed.
    fold (update_cells (py_range 2003 (cs + 1))).
    destruct (completed (list_fetch_games scorer remote)
                (update_cells (py_range 2003 (cs + 1))))
      as [|c p] eqn:Hp.
    + unfold update, update_plan. rewrite <- Hnow. fold cs.
      rewrite run_cells_completed.
      fold (update_cells (py_range 2003 (cs + 1))). rewrite Hp. reflexivity.
    + rewrite <- Hp.
      apply (second_run_file scorer remote cs [] 2003);
        [| |symmetry; exact Hnow].
      * intros k [].
      * left. reflexivity.
Qed.

(** A run in January 2003 that the site ends at the third team, and a
    second run in May. *)
Lemma update_idempotent_witness :
  fst (update exact_scorer two_pages_then_down 2003 5
         (fst (update exact_scorer two_pages_then_down 2003 1 None false))
         false)
  = fst (update exact_scorer two_pages_then_down 2003 1 None false).
Proof.
  exact (update_idempotent exact_scorer two_pages_then_down 2003 1 2003 5
           None eq_refl).
Defined.

(** * Further properties *)

(** ** The resolver on any name *)

(** With no negative score, [extractOne] finds a match in the pool. *)
Lemma extractOne_pool_some (scorer : string -> string -> Z) (query : string) :
  (forall a b, 0 <= scorer a b) ->
  exists name confidence,
    extractOne scorer query alias_pool = Some (name, confidence) /\
    In name alias_pool.
Proof.
  intros Hpos.
  destruct (extractOne scorer query alias_pool) as [[name c]|] eqn:Hx.
  - exists name, c. split; [reflexivity|]. exact (extractOne_in _ _ _ _ _ Hx).
  - exfalso. unfold extractOne in Hx.
    destruct (filter _ _) as [|x l] eqn:Hf; [|discriminate Hx].
    assert (Hin : In ("ATL", scorer (full_process query) (full_process "ATL"))
                    (filter (fun x => 0 <=? snd x)
                       (map (fun c => (c, scorer (full_process query)
                                            (full_process c))) alias_pool))).
    { apply filter_In. split.
      - apply in_map_iff. exists "ATL". split; [reflexivity|].
        left. reflexivity.
      - apply Z.leb_le. apply Hpos. }
    rewrite Hf in Hin. destruct Hin.
Qed.

(** X1: with a scorer that gives no negative score (as fuzzywuzzy's, which
    ranges over 0..100), [abbr] resolves every string: it raises nothing
    and returns the standard abbreviation (the ESPN one with [espn=True])
    of a row of the alias table, never [None]. *)
Theorem abbr_resolves_to_table :
  forall (scorer : string -> string -> Z) (team : string) (use_espn : bool),
    (forall a b, 0 <= scorer a b) ->
    exists r, In r team_aliases /\
      abbr scorer team use_espn
        = Ok (Some (if use_espn then espn r else std r)).
Proof.
  intros scorer t e Hpos. unfold abbr, abbr_with.
  destruct (extractOne_pool_some scorer t Hpos) as (name & c & -> & Hin).
  destruct (abbr_lookup_some name e team_aliases Hin) as [r [Hr [_ ->]]].
  exists r. split; [exact Hr|reflexivity].
Qed.

Lemma exact_scorer_nonneg (a b : string) : 0 <= exact_scorer a b.
Proof. unfold exact_scorer. destruct (String.eqb a b); lia. Defined.

Lemma abbr_resolves_to_table_witness :
  exists r, In r team_aliases /\
    abbr exact_scorer "Golden St." true = Ok (Some (espn r)).
Proof.
  exact (abbr_resolves_to_table exact_scorer "Golden St." true
           exact_scorer_nonneg).
Defined.

(** X2: with a scorer that gives 100 to equal processed strings and less to
    a differing choice of the pool, every name of the alias table, be it
    the standard abbreviation, the ESPN abbreviation or the city name,
    resolves to the standard abbreviation of its own row, and with
    [espn=True] to the ESPN abbreviation of that row. *)
Theorem abbr_alias_own_row :
  forall (scorer : string -> string -> Z),
    (forall q, In q alias_pool ->
       scorer (full_process q) (full_process q) = 100) ->
    (forall q c, In q alias_pool -> In c alias_pool ->
       full_process c <> full_process q ->
       scorer (full_process q) (full_process c) < 100) ->
    forall r q, In r team_aliases -> In q (row_items r) ->
      abbr scorer q false = Ok (Some (std r)) /\
      abbr scorer q true = Ok (Some (espn r)).
Proof.
  intros scorer Hsame Hother r q Hr Hq.
  assert (Hpool : In q alias_pool).
  { unfold alias_pool. apply in_flat_map. exists r. auto. }
  assert (Hall : forallb (fun r =>
            forallb (fun q =>
              match first_exact q alias_pool with
              | Some c =>
                  match abbr_lookup c false team_aliases,
                        abbr_lookup c true team_aliases with
                  | Some a, Some b =>
                      String.eqb a (std r) && String.eqb b (espn r)
                  | _, _ => false
                  end
              | None => false
              end) (row_items r)) team_aliases = true)
    by (vm_compute; reflexivity).
  rewrite forallb_forall in Hall. specialize (Hall r Hr).
  rewrite forallb_forall in Hall. specialize (Hall q Hq).
  destruct (first_exact q alias_pool) as [c|] eqn:Hf; [|discriminate].
  destruct (abbr_lookup c false team_aliases) as [a|] eqn:Ha;
    [|discriminate].
  destruct (abbr_lookup c true team_aliases) as [b|] eqn:Hb;
    [|discriminate].
  apply andb_prop in Hall as [H1 H2].
  apply String.eqb_eq in H1, H2. subst a b.
  unfold abbr, abbr_with.
  rewrite (extractOne_first_exact scorer q alias_pool (Hsame q Hpool)
             (fun c Hc Hne => Hother q c Hpool Hc Hne) c Hf).
  rewrite Ha, Hb. split; reflexivity.
Qed.

Lemma abbr_alias_own_row_witness :
  abbr exact_scorer "Golden State" false = Ok (Some "GSW") /\
  abbr exact_scorer "Golden State" true = Ok (Some "gs").
Proof.
  apply (abbr_alias_own_row exact_scorer) with
    (r := mkrow "GSW" "gs" "Golden State").
  - intros q _. unfold exact_scorer. rewrite String.eqb_refl. reflexivity.
  - intros q c _ _ Hne. unfold exact_scorer.
    destruct (String.eqb_spec (full_process q) (full_process c)) as [He|_];
      [congruence|lia].
  - cbn. tauto.
  - cbn. tauto.
Defined.

(** ** The record builder on the two sides of a game *)

(** X3: the record of a game built for one team and the record built for
    its opponent (opponent and team exchanged, [home] and [won] negated,
    the same score) agree on home and away team, home and away score,
    winner and loser, and each has the other's team score as its opponent
    score. *)
Theorem one_game_mirror :
  forall (d : py_date) (t o : string) (h w : bool) (s0 s1 : Z),
  exists g g' : Game,
    one_game d t o h w [s0; s1] = Ok g /\
    one_game d o t (negb h) (negb w) [s0; s1] = Ok g' /\
    home_team g' = home_team g /\ away_team g' = away_team g /\
    home_score g' = home_score g /\ away_score g' = away_score g /\
    winner g' = winner g /\ loser g' = loser g /\
    team_score g' = opp_score g /\ opp_score g' = team_score g.
Proof.
  intros d t o h w s0 s1. eexists. eexists.
  split; [reflexivity|]. split; [reflexivity|].
  destruct h, w; cbn; repeat split; reflexivity.
Qed.

(** A record that [one_game] built is the one it builds again from the
    record's own primary fields. *)
Lemma one_game_fixed (d : py_date) (t o : string) (h w : bool)
    (s : list Z) (g : Game) :
  one_game d t o h w s = Ok g ->
  one_game (date g) (team g) (opp g) (home g) (won g) (score g) = Ok g /\
  team g = t /\ opp g = o /\ List.length (score g) = 2%nat.
Proof.
  unfold one_game. destruct s as [|s0 [|s1 [|]]]; try discriminate.
  intros [= <-]. cbn. auto.
Qed.

(** ** What the fetcher yields *)

Lemma index_from_range (n : Z) (w : string) (names : list string) (i : Z) :
  index_from n w names = Some i ->
  n <= i < n + Z.of_nat (List.length names).
Proof.
  revert n; induction names as [|x names IH]; intros n; cbn [index_from];
    [discriminate|].
  destruct (String.eqb x w).
  - intros [= <-]. cbn [List.length]. lia.
  - intros H. apply IH in H. cbn [List.length]. lia.
Qed.

Lemma parse_day_range (s r : string) (d : Z) :
  parse_day s = Some (d, r) -> 1 <= d <= 31.
Proof.
  unfold parse_day.
  assert (Hr : forall x rest, (if (1 <=? x) && (x <=? 31)
                               then Some (x, rest) else None)
                              = Some (d, r) -> 1 <= d <= 31).
  { intros x rest. destruct ((1 <=? x) && (x <=? 31)) eqn:Hx;
      [|discriminate].
    intros [= <- _]. apply andb_prop in Hx as [H1 H2].
    apply Z.leb_le in H1, H2. lia. }
  destruct s as [|a [|b s]]; [discriminate| |]; cbv beta zeta.
  - destruct (digit_val a); [apply Hr|discriminate].
  - destruct (digit_val a) as [x|], (digit_val b) as [y|].
    + destruct ((1 <=? 10 * x + y) && (10 * x + y <=? 31)) eqn:Hx.
      * intros H. assert (Hd : d = 10 * x + y) by congruence.
        apply andb_prop in Hx as [H1 H2].
        apply Z.leb_le in H1, H2. lia.
      * apply Hr.
    + apply Hr.
    + destruct (Ascii.eqb a " "); [apply Hr|discriminate].
    + discriminate.
Qed.

(** A date that [strptime_abdY] returns is a date of the calendar. *)
Lemma strptime_abdY_valid (s : string) (d : py_date) :
  strptime_abdY s = Ok d ->
  1 <= year d <= 9999 /\ 1 <= month d <= 12 /\
  1 <= day d <= days_in_month (year d) (month d).
Proof.
  intros H.
  destruct (strptime_abdY_stages _ _ H)
    as (wd & r1 & r2 & r3 & mo & r4 & r5 & r6 & r7 & r8
        & _ & _ & _ & _ & _ & H5 & _ & H7 & _ & _ & H10).
  apply index_from_range in H5. cbn in H5.
  apply parse_day_range in H7.
  assert (Hy : 0 <= year d <= 9999).
  { unfold parse_year_end in H10.
    destruct r8 as [|a [|b [|c [|e [|]]]]]; try discriminate H10.
    destruct (digit_val a) as [w|] eqn:Ha; [|discriminate H10].
    destruct (digit_val b) as [x|] eqn:Hb; [|discriminate H10].
    destruct (digit_val c) as [y|] eqn:Hc; [|discriminate H10].
    destruct (digit_val e) as [z|] eqn:He; [|discriminate H10].
    assert (Hyd : year d = 1000 * w + 100 * x + 10 * y + z) by congruence.
    apply digit_range in Ha, Hb, Hc, He. lia. }
  unfold strptime_abdY in H.
  match type of H with
  | match ?p with _ => _ end = _ => destruct p as [d'|] eqn:Hp;
      [|discriminate H]
  end.
  injection H as ->.
  repeat bind_step Hp.
  repeat match type of Hp with
         | context [let '(_, _) := ?p in _] => destruct p
         end.
  repeat (bind_step Hp;
          repeat match type of Hp with
                 | context [let '(_, _) := ?p in _] => destruct p
                 end).
  match type of Hp with
  | (if ?c then _ else _) = _ => destruct c eqn:Hc; [|discriminate Hp]
  end.
  injection Hp as <-. cbn [year month day] in *.
  apply andb_prop in Hc as [H1 H2]. apply Z.leb_le in H1, H2. lia.
Qed.

Lemma abbr_lookup_std (name : string) (rows : list alias_row) (a : string) :
  abbr_lookup name false rows = Some a -> In a (map std rows).
Proof.
  induction rows as [|r rows IH]; cbn [abbr_lookup]; [discriminate|].
  destruct (in_row name r).
  - intros [= <-]. left. reflexivity.
  - intros H. right. exact (IH H).
Qed.

Section FetcherYield.

Variable scorer : string -> string -> Z.
Variable remote : string -> result page.

Lemma abbr_str_teams (name s : string) :
  abbr_str scorer name = Ok s -> In s teams.
Proof.
  unfold abbr_str, abbr, abbr_with.
  destruct (extractOne scorer name alias_pool) as [[n c]|]; [|discriminate].
  cbn [bind].
  destruct (abbr_lookup n false team_aliases) as [a|] eqn:Ha;
    [|discriminate].
  intros [= <-]. exact (abbr_lookup_std _ _ _ Ha).
Qed.

(** A game of the row loop comes from one of its rows. *)
Lemma fetch_rows_yield (season : Z) (entries : list tr) :
  forall team g,
    In g (fst (fetch_rows scorer season team entries)) ->
    exists team0 row team',
      In row entries /\
      row_game scorer season team0 row = (team', Ok g).
Proof.
  induction entries as [|row entries IH]; intros team g; cbn [fetch_rows].
  - intros [].
  - destruct (row_game scorer season team row) as [team' [g'|e]] eqn:Hr.
    + destruct (fetch_rows scorer season team' entries) as [gs e'] eqn:Hf.
      cbn [fst]. intros [<-|Hin].
      * exists team, row, team'. split; [left; reflexivity|exact Hr].
      * destruct (IH team' g) as (t0 & r0 & t' & Hin0 & H0);
          [rewrite Hf; exact Hin|].
        exists t0, r0, t'. split; [right; exact Hin0|exact H0].
    + destruct (caught e); [|intros []].
      intros Hin. destruct (IH team' g Hin) as (t0 & r0 & t' & Hin0 & H0).
      exists t0, r0, t'. split; [right; exact Hin0|exact H0].
Qed.

Lemma fetch_games_yield (team : string) (season : Z) (g : Game) :
  In g (fst (fetch_games scorer remote team season)) ->
  exists team0 row team', row_game scorer season team0 row = (team', Ok g).
Proof.
  unfold fetch_games.
  destruct (abbr scorer team true) as [name|e]; [|intros []].
  destruct (remote (BASEURL name season)) as [[rows|]|e]; try (intros []).
  intros H. destruct (fetch_rows_yield _ _ _ _ H) as (t0 & r0 & t' & _ & H0).
  exists t0, r0, t'. exact H0.
Qed.

(** What a successful pass of the row loop went through. *)
Lemma row_game_ok (season : Z) (team team' : string) (row : tr) (g : Game) :
  row_game scorer season team row = (team', Ok g) ->
  exists d opp' h w s,
    row_head scorer season team row = Ok (d, team', opp') /\
    one_game d team' opp' h w s = Ok g.
Proof.
  unfold row_game.
  destruct (row_head scorer season team row) as [[[d t] o]|e] eqn:Hh;
    [|discriminate].
  intros [= <- Ht]. unfold row_tail in Ht.
  destruct row as [|dc [|oc [|rc other]]]; try discriminate.
  result_step Ht. result_step Ht. result_step Ht. result_step Ht.
  eexists d, o, _, _, _. split; [reflexivity|exact Ht].
Qed.

Lemma row_head_names (season : Z) (team : string) (row : tr)
    (d : py_date) (t o : string) :
  row_head scorer season team row = Ok (d, t, o) ->
  In t teams /\ In o teams /\
  1 <= year d <= 9999 /\ 1 <= month d <= 12 /\
  1 <= day d <= days_in_month (year d) (month d).
Proof.
  unfold row_head.
  destruct row as [|dc [|oc [|rc other]]]; try discriminate.
  destruct (split_ws (td_text dc)) as [|wd [|mo [|dy [|]]]];
    try discriminate.
  intros H. result_step H. result_step H. result_step H.
  result_step H. result_step H. injection H as -> -> ->.
  split; [exact (abbr_str_teams _ _ E2)|].
  split; [exact (abbr_str_teams _ _ E3)|].
  exact (strptime_abdY_valid _ _ E0).
Qed.

End FetcherYield.

(** X5: every game that [fetch_games] yields names both the team and the
    opponent by a standard abbreviation of the alias table, whatever the
    page printed and whatever name the fetch was asked for. *)
Theorem fetch_games_standard_names :
  forall scorer remote name season g,
    In g (fst (fetch_games scorer remote name season)) ->
    In (team g) teams /\ In (opp g) teams.
Proof.
  intros scorer remote name season g Hin.
  destruct (fetch_games_yield scorer remote name season g Hin)
    as (t0 & row & t' & Hrow).
  destruct (row_game_ok scorer season t0 t' row g Hrow)
    as (d & o & h & w & s & Hhead & Hgame).
  destruct (row_head_names scorer season t0 row d t' o Hhead)
    as (Ht & Ho & _).
  destruct (one_game_fixed d t' o h w s g Hgame) as (_ & -> & -> & _).
  split; assumption.
Qed.

Lemma fetch_games_standard_names_witness :
  In (team game_nov_10) teams /\ In (opp game_nov_10) teams.
Proof.
  exact (fetch_games_standard_names exact_scorer (serve page_2021) "BOS" 2021
           game_nov_10 page_2021_yields_nov).
Defined.

(** X6: every game that [fetch_games] yields for a season has a date of the
    calendar (month 1 to 12, a day that the month has in that year) that
    lies from July 1 of the year before the season through June 30 of the
    season's year. *)
Theorem fetch_games_season_window :
  forall scorer remote name season g,
    In g (fst (fetch_games scorer remote name season)) ->
    1 <= month (date g) <= 12 /\
    1 <= day (date g) <= days_in_month (year (date g)) (month (date g)) /\
    date_ltb (date g) (mkdate (season - 1) 7 1) = false /\
    date_ltb (date g) (mkdate season 7 1) = true.
Proof.
  intros scorer remote name season g Hin.
  pose proof (fetch_games_date scorer remote name season g Hin) as Hy.
  destruct (fetch_games_yield scorer remote name season g Hin)
    as (t0 & row & t' & Hrow).
  destruct (row_game_ok scorer season t0 t' row g Hrow)
    as (d & o & h & w & s & Hhead & Hgame).
  destruct (row_head_names scorer season t0 row d t' o Hhead)
    as (_ & _ & _ & Hm & Hd).
  rewrite <- (one_game_date d t' o h w s g Hgame) in Hm, Hd.
  split; [exact Hm|]. split; [exact Hd|].
  unfold season_year in Hy.
  rewrite date_ltb_false_iff, date_ltb_iff. cbn [year month day].
  destruct (Z.ltb_spec (month (date g)) 7); lia.
Qed.

Lemma fetch_games_season_window_witness :
  1 <= month (date game_jan_15) <= 12 /\
  1 <= day (date game_jan_15)
    <= days_in_month (year (date game_jan_15)) (month (date game_jan_15)) /\
  date_ltb (date game_jan_15) (mkdate (2021 - 1) 7 1) = false /\
  date_ltb (date game_jan_15) (mkdate 2021 7 1) = true.
Proof.
  exact (fetch_games_season_window exact_scorer (serve page_2021) "BOS" 2021
           game_jan_15 page_2021_yields_jan).
Defined.

(** X7: every game that [fetch_games] yields is a record of [one_game]: its
    score has two elements and its derived fields are those that
    [one_game] computes from its date, team, opponent, home and won flags
    and score. *)
Theorem fetch_games_records :
  forall scorer remote name season g,
    In g (fst (fetch_games scorer remote name season)) ->
    one_game (date g) (team g) (opp g) (home g) (won g) (score g) = Ok g /\
    List.length (score g) = 2%nat.
Proof.
  intros scorer remote name season g Hin.
  destruct (fetch_games_yield scorer remote name season g Hin)
    as (t0 & row & t' & Hrow).
  destruct (row_game_ok scorer season t0 t' row g Hrow)
    as (d & o & h & w & s & _ & Hgame).
  destruct (one_game_fixed d t' o h w s g Hgame) as (H1 & _ & _ & H2).
  split; assumption.
Qed.

Lemma fetch_games_records_witness :
  one_game (date game_nov_10) (team game_nov_10) (opp game_nov_10)
    (home game_nov_10) (won game_nov_10) (score game_nov_10)
    = Ok game_nov_10 /\
  List.length (score game_nov_10) = 2%nat.
Proof.
  exact (fetch_games_records exact_scorer (serve page_2021) "BOS" 2021
           game_nov_10 page_2021_yields_nov).
Defined.

(** ** The exceptions of the row loop *)

Lemma map_result_py_int_raise (l : list string) (e : exn) :
  map_result py_int l = Raise e -> e = ValueError.
Proof.
  induction l as [|a l IH]; cbn [map_result]; [discriminate|].
  unfold py_int at 1.
  destruct (match strip a with
            | String "-"%char u => option_map Z.opp (int_digits u 0)
            | String "+"%char u => int_digits u 0
            | _ => int_digits (strip a) 0
            end) as [z|]; cbn [bind]; [|congruence].
  destruct (map_result py_int l) as [bs|e'] eqn:Hl; cbn [bind];
    [discriminate|].
  intros [= <-]. apply IH. reflexivity.
Qed.

Lemma one_game_raise (d : py_date) (t o : string) (h w : bool) (s : list Z)
    (e : exn) :
  one_game d t o h w s = Raise e -> e = ValueError.
Proof.
  unfold one_game. destruct s as [|s0 [|s1 [|]]]; congruence.
Qed.

Section RowExceptions.

Variable scorer : string -> string -> Z.
Hypothesis scorer_nonneg : forall a b, 0 <= scorer a b.

Lemma abbr_str_ok (name : string) : exists s, abbr_str scorer name = Ok s.
Proof.
  unfold abbr_str, abbr, abbr_with.
  destruct (extractOne_pool_some scorer name scorer_nonneg)
    as (n & c & -> & Hin).
  destruct (abbr_lookup_some n false team_aliases Hin) as [r [_ [_ ->]]].
  cbn. eexists. reflexivity.
Qed.

(** An exception of a pass of the row loop is one that the loop swallows,
    unless the opponent cell has fewer than two links. *)
Lemma row_game_raise (season : Z) (team team' : string) (row : tr)
    (e : exn) :
  row_game scorer season team row = (team', Raise e) ->
  caught e = true \/
  (e = IndexError /\
   exists dc oc rest, row = dc :: oc :: rest /\
     (List.length (td_a oc) < 2)%nat).
Proof.
  unfold row_game.
  destruct (row_head scorer season team row) as [[[d t] o]|e'] eqn:Hh.
  - (* the markers and the score *)
    intros [= _ Ht]. left. unfold row_tail in Ht.
    destruct row as [|dc [|oc [|rc other]]]; try (injection Ht as <-;
      reflexivity).
    destruct (td_li oc); cbn [text_of bind] in Ht;
      [|injection Ht as <-; reflexivity].
    destruct (td_span rc); cbn [text_of bind] in Ht;
      [|injection Ht as <-; reflexivity].
    destruct (hd_error (td_a rc)); cbn [text_of bind] in Ht;
      [|injection Ht as <-; reflexivity].
    destruct (map_result py_int _) as [sc|e0] eqn:Hs; cbn [bind] in Ht.
    + apply one_game_raise in Ht. subst e. reflexivity.
    + injection Ht as <-. apply map_result_py_int_raise in Hs. subst e0.
      reflexivity.
  - (* the date and the names *)
    intros [= _ <-]. unfold row_head in Hh.
    destruct row as [|dc [|oc [|rc other]]];
      try (injection Hh as <-; left; reflexivity).
    destruct (split_ws (td_text dc)) as [|wd [|mo [|dy [|]]]];
      try (injection Hh as <-; left; reflexivity).
    unfold strptime_b in Hh.
    destruct (index_from 1 (lower mo) month_abbrs) as [m|]; cbn [bind] in Hh;
      [|injection Hh as <-; left; reflexivity].
    unfold strptime_abdY in Hh.
    match type of Hh with
    | context [match ?p with Some _ => _ | None => _ end] =>
        destruct p as [d0|]; cbn [bind] in Hh;
          [|injection Hh as <-; left; reflexivity]
    end.
    unfold item1 in Hh.
    destruct (td_a oc) as [|a0 [|a1 links]] eqn:Ha; cbn [bind] in Hh;
      try (injection Hh as <-; right; split; [reflexivity|];
           exists dc, oc, (rc :: other); split; [reflexivity|];
           rewrite Ha; cbn; lia).
    destruct (abbr_str_ok team) as [t Ht]. rewrite Ht in Hh. cbn [bind] in Hh.
    destruct (abbr_str_ok a1) as [o Ho]. rewrite Ho in Hh. cbn [bind] in Hh.
    discriminate Hh.
Qed.

(** The row loop ends with an exception only at a row whose opponent cell
    has fewer than two links, and the exception is [IndexError]. *)
Lemma fetch_rows_raise (season : Z) (entries : list tr) :
  forall team e,
    snd (fetch_rows scorer season team entries) = Some e ->
    e = IndexError /\
    exists dc oc rest, In (dc :: oc :: rest) entries /\
      (List.length (td_a oc) < 2)%nat.
Proof.
  induction entries as [|row entries IH]; intros team e; cbn [fetch_rows].
  - discriminate.
  - destruct (row_game scorer season team row) as [team' [g|e']] eqn:Hr.
    + destruct (fetch_rows scorer season team' entries) as [gs e0] eqn:Hf.
      cbn [snd]. intros ->.
      destruct (IH team' e) as (He & dc & oc & rest & Hin & Hlen);
        [rewrite Hf; reflexivity|].
      split; [exact He|]. exists dc, oc, rest. split; [right|]; assumption.
    + destruct (row_game_raise _ _ _ _ _ Hr)
        as [Hc|(-> & dc & oc & rest & -> & Hlen)].
      * rewrite Hc. intros H.
        destruct (IH team' e H) as (He & dc & oc & rest & Hin & Hlen).
        split; [exact He|]. exists dc, oc, rest. split; [right|]; assumption.
      * cbn [caught snd]. intros [= <-]. split; [reflexivity|].
        exists dc, oc, rest. split; [left; reflexivity|exact Hlen].
Qed.

End RowExceptions.

(** X8: with a scorer that gives no negative score and a site that answers,
    the only exception with which [fetch_games] ends is [IndexError], and
    it ends so only when a row after the heading row has an opponent cell
    with fewer than two links; when every such cell has two links or more,
    no row makes the fetch raise, whatever else is wrong in the page. *)
Theorem fetch_games_raises_only_index_error :
  forall scorer remote name season,
    (forall a b, 0 <= scorer a b) ->
    (forall url, exists p, remote url = Ok p) ->
    (forall e,
       snd (fetch_games scorer remote name season) = Some e ->
       e = IndexError) /\
    (forall rows,
       (forall url, remote url = Ok (Some rows)) ->
       (forall dc oc rest, In (dc :: oc :: rest) (tl rows) ->
          (2 <= List.length (td_a oc))%nat) ->
       snd (fetch_games scorer remote name season) = None).
Proof.
  intros scorer remote name season Hpos Hsite.
  assert (Hname : exists n, abbr scorer name true = Ok n).
  { unfold abbr, abbr_with.
    destruct (extractOne_pool_some scorer name Hpos) as (n & c & -> & _).
    eexists. reflexivity. }
  destruct Hname as [n Hn]. unfold fetch_games. rewrite Hn.
  split.
  - intros e. destruct (Hsite (BASEURL n season)) as [[rows|] ->];
      [|discriminate].
    intros H. exact (proj1 (fetch_rows_raise scorer Hpos _ _ _ _ H)).
  - intros rows Hrows Hlinks. rewrite Hrows.
    destruct (snd (fetch_rows scorer season name (tl rows))) as [e|] eqn:He;
      [|reflexivity].
    destruct (fetch_rows_raise scorer Hpos _ _ _ _ He)
      as (_ & dc & oc & rest & Hin & Hlen).
    specialize (Hlinks dc oc rest Hin). lia.
Qed.

Lemma fetch_games_raises_only_index_error_witness :
  (forall e,
     snd (fetch_games exact_scorer (serve page_2020_unlinked) "BOS" 2020)
       = Some e ->
     e = IndexError) /\
  (forall rows,
     (forall url, serve page_2020_unlinked url = Ok (Some rows)) ->
     (forall dc oc rest, In (dc :: oc :: rest) (tl rows) ->
        (2 <= List.length (td_a oc))%nat) ->
     snd (fetch_games exact_scorer (serve page_2020_unlinked) "BOS" 2020)
       = None).
Proof.
  apply (fetch_games_raises_only_index_error exact_scorer
           (serve page_2020_unlinked) "BOS" 2020 exact_scorer_nonneg).
  intros url. exists page_2020_unlinked. reflexivity.
Defined.

(** ** The loop variable [team] *)

Section TeamKept.

Variable scorer : string -> string -> Z.
Hypothesis score_same :
  forall s, In s teams -> scorer (full_process s) (full_process s) = 100.
Hypothesis score_other :
  forall s c, In s teams -> In c alias_pool ->
    full_process c <> full_process s ->
    scorer (full_process s) (full_process c) < 100.

Lemma abbr_str_self (s : string) : In s teams -> abbr_str scorer s = Ok s.
Proof.
  intros Hs.
  assert (Hall : forallb (fun s =>
            match first_exact s alias_pool with
            | Some c =>
                match abbr_lookup c false team_aliases with
                | Some a => String.eqb a s
                | None => false
                end
            | None => false
            end) teams = true) by (vm_compute; reflexivity).
  rewrite forallb_forall in Hall. specialize (Hall s Hs).
  destruct (first_exact s alias_pool) as [c|] eqn:Hf; [|discriminate].
  destruct (abbr_lookup c false team_aliases) as [a|] eqn:Hl; [|discriminate].
  apply String.eqb_eq in Hall. subst a.
  unfold abbr_str, abbr, abbr_with.
  rewrite (extractOne_first_exact scorer s alias_pool (score_same s Hs)
             (fun c Hc Hne => score_other s c Hs Hc Hne) c Hf).
  rewrite Hl. reflexivity.
Qed.

Lemma row_game_team (season : Z) (s team' : string) (row : tr)
    (r : result Game) :
  In s teams ->
  row_game scorer season s row = (team', r) ->
  team' = s /\ forall g, r = Ok g -> team g = s.
Proof.
  intros Hs. unfold row_game.
  destruct (row_head scorer season s row) as [[[d t] o]|e] eqn:Hh.
  - assert (Ht : t = s).
    { unfold row_head in Hh.
      destruct row as [|dc [|oc [|rc other]]]; try discriminate.
      destruct (split_ws (td_text dc)) as [|wd [|mo [|dy [|]]]];
        try discriminate.
      result_step Hh. result_step Hh. result_step Hh.
      rewrite (abbr_str_self s Hs) in Hh. cbn [bind] in Hh.
      result_step Hh. congruence. }
    subst t. intros [= <- <-]. split; [reflexivity|].
    intros g Hg. unfold row_tail in Hg.
    destruct row as [|dc [|oc [|rc other]]]; try discriminate.
    result_step Hg. result_step Hg. result_step Hg. result_step Hg.
    exact (proj1 (proj2 (one_game_fixed _ _ _ _ _ _ _ Hg))).
  - intros [= <- <-]. split; [reflexivity|]. discriminate.
Qed.

Lemma fetch_rows_team (season : Z) (s : string) (entries : list tr) :
  In s teams ->
  forall g, In g (fst (fetch_rows scorer season s entries)) -> team g = s.
Proof.
  intros Hs. induction entries as [|row entries IH]; intros g;
    cbn [fetch_rows]; [intros []|].
  destruct (row_game scorer season s row) as [team' r] eqn:Hr.
  destruct (row_game_team season s team' row r Hs Hr) as [-> Hg].
  destruct r as [g'|e].
  - destruct (fetch_rows scorer season s entries) as [gs e'].
    cbn [fst] in *. intros [<-|Hin]; [apply Hg; reflexivity|exact (IH g Hin)].
  - destruct (caught e); [exact (IH g)|intros []].
Qed.

End TeamKept.

(** X9: with a scorer that gives 100 to equal processed strings and less to
    a differing choice of the pool, every game fetched for a standard
    abbreviation has that abbreviation as its team: the loop rebinds
    [team] to its resolved name at every row, and a standard abbreviation
    resolves to itself. *)
Theorem fetch_games_team :
  forall scorer remote s season g,
    (forall s, In s teams ->
       scorer (full_process s) (full_process s) = 100) ->
    (forall s c, In s teams -> In c alias_pool ->
       full_process c <> full_process s ->
       scorer (full_process s) (full_process c) < 100) ->
    In s teams ->
    In g (fst (fetch_games scorer remote s season)) ->
    team g = s.
Proof.
  intros scorer remote s season g Hsame Hother Hs. unfold fetch_games.
  destruct (abbr scorer s true) as [name|e]; [|intros []].
  destruct (remote (BASEURL name season)) as [[rows|]|e]; try (intros []).
  apply (fetch_rows_team scorer Hsame Hother season s (tl rows) Hs).
Qed.

Lemma exact_scorer_same (s : string) :
  In s teams -> exact_scorer (full_process s) (full_process s) = 100.
Proof.
  intros _. unfold exact_scorer. rewrite String.eqb_refl. reflexivity.
Defined.

Lemma exact_scorer_other (s c : string) :
  In s teams -> In c alias_pool -> full_process c <> full_process s ->
  exact_scorer (full_process s) (full_process c) < 100.
Proof.
  intros _ _ Hne. unfold exact_scorer.
  destruct (String.eqb_spec (full_process s) (full_process c)) as [He|_];
    [congruence|lia].
Defined.

Lemma bos_in_teams : In "BOS" teams.
Proof. cbn. tauto. Defined.

Lemma fetch_games_team_witness : team game_jan_15 = "BOS".
Proof.
  exact (fetch_games_team exact_scorer (serve page_2021) "BOS" 2021
           game_jan_15 exact_scorer_same exact_scorer_other bos_in_teams
           page_2021_yields_jan).
Defined.

(** ** The heading row *)

Lemma fetch_rows_length (scorer : string -> string -> Z) (season : Z)
    (entries : list tr) :
  forall team,
    (List.length (fst (fetch_rows scorer season team entries))
     <= List.length entries)%nat.
Proof.
  induction entries as [|row entries IH]; intros team; cbn [fetch_rows];
    [cbn; lia|].
  destruct (row_game scorer season team row) as [team' [g|e]].
  - specialize (IH team').
    destruct (fetch_rows scorer season team' entries) as [gs e'].
    cbn [fst List.length] in *. lia.
  - destruct (caught e); [specialize (IH team'); cbn [List.length]; lia|].
    cbn. lia.
Qed.

(** X10: the first row of the table is taken for the heading and never
    read: whatever it holds, also a well-formed schedule row, the fetch
    gives the same result, and it yields at most one game for each row
    after the first. *)
Theorem fetch_games_heading_row :
  forall scorer name season (first first' : tr) (rest : list tr),
    fetch_games scorer (serve (Some (first :: rest))) name season
      = fetch_games scorer (serve (Some (first' :: rest))) name season /\
    (List.length
       (fst (fetch_games scorer (serve (Some (first :: rest))) name season))
     <= List.length rest)%nat.
Proof.
  intros scorer name season first first' rest. unfold fetch_games, serve.
  split; [reflexivity|].
  destruct (abbr scorer name true) as [n|e]; [|cbn; lia].
  cbn [tl]. apply fetch_rows_length.
Qed.

(** ** The reader's errors and the order of equal dates *)

(** X11: the reader returns a sequence exactly when every cached season has
    a cell for every team of the alias table; with any cell missing it
    raises [KeyError], and without a cache file it exits. *)
Theorem load_games_outcomes :
  forall games : cache,
    (load_games (Some games) = Ok (sorted_by_date (flat_cells games))
     <-> complete games = true) /\
    (load_games (Some games) = Raise KeyError <-> complete games = false) /\
    load_games None = Raise SystemExit.
Proof.
  intros games. destruct (complete games) eqn:Hc.
  - rewrite (load_games_complete games Hc).
    repeat split; try reflexivity; discriminate.
  - rewrite (load_games_incomplete games Hc).
    repeat split; try reflexivity; discriminate.
Qed.

Lemma insert_by_date_filter (d : py_date) (g : Game) (l : list Game) :
  filter (fun x => date_eqb (date x) d) (insert_by_date g l)
    = filter (fun x => date_eqb (date x) d) (g :: l).
Proof.
  induction l as [|h l IH]; [reflexivity|]. cbn [insert_by_date].
  destruct (date_ltb (date h) (date g)) eqn:Hlt; [|reflexivity].
  cbn [filter] in *. rewrite IH.
  destruct (date_eqb (date g) d) eqn:Hg; [|reflexivity].
  destruct (date_eqb (date h) d) eqn:Hh; [|reflexivity].
  exfalso. unfold date_eqb in Hg, Hh.
  rewrite !andb_true_iff, !Z.eqb_eq in Hg, Hh.
  rewrite date_ltb_iff in Hlt. lia.
Qed.

(** X12: the sort of the reader is stable: the games of any one date appear
    in the returned sequence in the order in which the cells hold them,
    team by team in the order of the alias table and, for a team, season
    key by season key. *)
Theorem load_games_stable :
  forall (games : cache) (l : list Game) (d : py_date),
    load_games (Some games) = Ok l ->
    filter (fun g => date_eqb (date g) d) l
      = filter (fun g => date_eqb (date g) d) (flat_cells games).
Proof.
  intros games l d H.
  destruct (complete games) eqn:Hc;
    [|rewrite (load_games_incomplete games Hc) in H; discriminate H].
  rewrite (load_games_complete games Hc) in H. injection H as <-.
  induction (flat_cells games) as [|g cells IH]; [reflexivity|].
  cbn [sorted_by_date fold_right]. rewrite insert_by_date_filter.
  cbn [filter]. fold (sorted_by_date cells). rewrite IH. reflexivity.
Qed.

Lemma load_full_cache :
  load_games (Some full_cache)
    = Ok [game_2018_10_16; game_2018_10_19; game_oct_23].
Proof. vm_compute. reflexivity. Qed.

Lemma load_games_stable_witness :
  filter (fun g => date_eqb (date g) (mkdate 2018 10 19))
    [game_2018_10_16; game_2018_10_19; game_oct_23]
  = filter (fun g => date_eqb (date g) (mkdate 2018 10 19))
      (flat_cells full_cache).
Proof.
  exact (load_games_stable full_cache _ (mkdate 2018 10 19) load_full_cache).
Defined.

(** ** What the updater leaves alone *)

Lemma py_range_nil (a b : Z) : b <= a -> py_range a b = [].
Proof.
  intros H. unfold py_range.
  replace (Z.to_nat (b - a)) with 0%nat by lia. reflexivity.
Qed.

Lemma complete_iff (games : cache) :
  complete games = true <->
  forall y t, In y (keys games) -> In t teams ->
    cache_get y t games <> None.
Proof.
  unfold complete. rewrite forallb_forall. split.
  - intros H y t Hy Ht. specialize (H y Hy). rewrite forallb_forall in H.
    specialize (H t Ht). destruct (cache_get y t games); congruence.
  - intros H y Hy. apply forallb_forall. intros t Ht.
    specialize (H y t Hy Ht). destruct (cache_get y t games); congruence.
Qed.

Section UpdaterMore.

Variable scorer : string -> string -> Z.
Variable remote : string -> result page.

Local Abbreviation fetch := (list_fetch_games scorer remote).

Lemma write_cells_get_some (l : list (Z * alias_row)) (games : cache)
    (s : Z) (t : string) (v : list Game) :
  cache_get s t games = Some v ->
  exists v', cache_get s t (write_cells fetch l games) = Some v'.
Proof.
  intros H. induction l as [|c l IH] using rev_ind; [exists v; exact H|].
  rewrite write_cells_snoc. unfold write_cell.
  destruct (fetch_cell fetch c) as [value|e]; [|exact IH].
  destruct (Z.eq_dec s (fst c)) as [Hs|Hs];
    [destruct (string_dec t (std (snd c))) as [Ht|Ht]|].
  - exists value. rewrite Hs, Ht. apply cache_get_set_eq.
  - rewrite cache_get_set_ne by congruence. exact IH.
  - rewrite cache_get_set_ne by congruence. exact IH.
Qed.

(** A loop that ends without an exception has fetched every cell. *)
Lemma run_cells_finished (l : list (Z * alias_row)) :
  forall games disk,
    snd (run_cells scorer remote l games disk) = None ->
    Forall (fetched fetch) l.
Proof.
  induction l as [|[s row] l IH]; intros games disk; cbn [run_cells];
    [constructor|].
  destruct (list_fetch_games scorer remote (std row) s) as [value|e] eqn:Hc;
    [|discriminate].
  intros H. constructor; [exists value; exact Hc|exact (IH _ _ H)].
Qed.

(** The file after an update without rebuild of an existing cache. *)
Lemma update_file (now_year now_month : Z) (c0 : cache) (k : Z)
    (ks : list Z) :
  keys c0 = k :: ks ->
  fst (update scorer remote now_year now_month (Some c0) false)
    = Some (write_cells fetch
              (completed fetch
                 (update_cells
                    (py_range (fold_left Z.max ks k)
                       (current_season now_year now_month + 1)))) c0).
Proof.
  intros Hk. unfold update, update_plan. rewrite Hk. cbn [py_max bind].
  rewrite run_cells_completed.
  fold (update_cells (py_range (fold_left Z.max ks k)
                        (current_season now_year now_month + 1))).
  destruct (completed fetch _); reflexivity.
Qed.

End UpdaterMore.

(** X13: an update without rebuild never drops anything from the cache it
    loads: every season key and every cell of the loaded cache is still in
    the file afterwards, and the cells of every season before the latest
    cached one are exactly as they were (only the latest cached season and
    the seasons after it are fetched again). *)
Theorem update_keeps_older_seasons :
  forall scorer remote now_year now_month (c0 : cache),
  exists file,
    fst (update scorer remote now_year now_month (Some c0) false)
      = Some file /\
    (forall k, In k (keys c0) -> In k (keys file)) /\
    (forall s t v, cache_get s t c0 = Some v ->
       exists v', cache_get s t file = Some v') /\
    (forall s k t, In k (keys c0) -> s < k ->
       cache_get s t file = cache_get s t c0).
Proof.
  intros scorer remote y mo c0.
  destruct (keys c0) as [|k ks] eqn:Hk.
  - exists c0. unfold update, update_plan. rewrite Hk. cbn.
    repeat split; auto.
    + intros s t v H. exists v. exact H.
  - rewrite (update_file scorer remote y mo c0 k ks Hk).
    set (m := fold_left Z.max ks k).
    set (p := completed (list_fetch_games scorer remote)
                (update_cells (py_range m (current_season y mo + 1)))).
    exists (write_cells (list_fetch_games scorer remote) p c0).
    split; [reflexivity|]. split; [|split].
    + intros k' Hk'. apply keys_write_cells; [apply completed_fetched|].
      left. rewrite Hk. exact Hk'.
    + intros s t v H. exact (write_cells_get_some scorer remote p c0 s t v H).
    + intros s k' t Hk' Hlt. apply write_cells_get_out.
      intros c Hc Heq. apply completed_incl, update_cells_season in Hc.
      apply in_py_range in Hc.
      pose proof (fold_max_upper ks k k' Hk') as Hmax. fold m in Hmax.
      injection Heq as Hs _. lia.
Qed.

(** X14: when the first season to scrape is after the current season, the
    update fetches nothing and leaves the cache file as it is: a loaded
    cache whose latest season is beyond the current one stays, and a first
    run at a date whose season is before 2003 writes no file. *)
Theorem update_nothing_to_scrape :
  forall scorer remote now_year now_month,
    (forall c0 k ks,
       keys c0 = k :: ks ->
       current_season now_year now_month < fold_left Z.max ks k ->
       update scorer remote now_year now_month (Some c0) false
         = (Some c0, None)) /\
    (current_season now_year now_month < 2003 ->
     forall disk rebuild,
       disk = None \/ rebuild = true ->
       update scorer remote now_year now_month disk rebuild = (disk, None)).
Proof.
  intros scorer remote y mo. split.
  - intros c0 k ks Hk Hlt. unfold update, update_plan. rewrite Hk.
    cbn [py_max bind]. rewrite py_range_nil by lia. reflexivity.
  - intros Hlt disk rebuild Hfresh. unfold update.
    assert (Hplan : update_plan y mo disk rebuild
                    = Ok (py_range 2003 (current_season y mo + 1), []))
      by (destruct Hfresh as [-> | ->]; [|destruct disk]; reflexivity).
    rewrite Hplan, py_range_nil by lia. reflexivity.
Qed.

Lemma update_nothing_to_scrape_witness :
  update exact_scorer two_pages_then_down 2002 7 None false = (None, None).
Proof.
  exact (proj2 (update_nothing_to_scrape exact_scorer two_pages_then_down
                  2002 7) eq_refl None false (or_introl eq_refl)).
Defined.

(** ** The updater and the reader together *)

Lemma py_range_nodup (a b : Z) : NoDup (py_range a b).
Proof.
  pose proof (py_range_sorted a b) as H.
  induction H as [|x l Hl IH Hx]; constructor; [|exact IH].
  intros Hin. rewrite Forall_forall in Hx. specialize (Hx x Hin). lia.
Qed.

Lemma update_plan_nodup (now_year now_month : Z) (disk : option cache)
    (rebuild : bool) (seasons : list Z) (games : cache) :
  update_plan now_year now_month disk rebuild = Ok (seasons, games) ->
  NoDup seasons.
Proof.
  unfold update_plan. destruct disk as [c|], rebuild;
    try (intros [= <- _]; apply py_range_nodup).
  destruct (py_max (keys c)); cbn [bind]; [|discriminate].
  intros [= <- _]. apply py_range_nodup.
Qed.

Lemma teams_nodup : NoDup teams.
Proof.
  assert (H : forall l : list string,
            (fix nd (l : list string) : bool :=
               match l with
               | [] => true
               | x :: l' => negb (existsb (String.eqb x) l') && nd l'
               end) l = true -> NoDup l).
  { induction l as [|x l IH]; [constructor|].
    intros Hx. apply andb_prop in Hx as [Hx Hl].
    constructor; [|exact (IH Hl)].
    intros Hin. apply negb_true_iff in Hx.
    assert (Ht : existsb (String.eqb x) l = true)
      by (apply existsb_exists; exists x; split;
          [exact Hin|apply String.eqb_refl]).
    congruence. }
  apply H. vm_compute. reflexivity.
Qed.

Lemma season_row_keys_nodup (s : Z) (rows : list alias_row) :
  NoDup (map std rows) -> NoDup (map (fun r => (s, std r)) rows).
Proof.
  induction rows as [|r rows IH]; cbn [map]; intros Hnd; [constructor|].
  inversion Hnd as [|? ? Hin Hnd']; subst. constructor; [|exact (IH Hnd')].
  intros H. apply in_map_iff in H as [r' [Heq Hr']].
  apply Hin. apply in_map_iff. exists r'. split; [congruence|exact Hr'].
Qed.

(** No two cells of an update have the same season and team. *)
Lemma update_cells_nodup (seasons : list Z) :
  NoDup seasons -> NoDup (map cell_key (update_cells seasons)).
Proof.
  unfold update_cells.
  induction 1 as [|s seasons Hs Hnd IH]; cbn [list_prod]; [constructor|].
  rewrite map_app. apply NoDup_app.
  - rewrite map_map. unfold cell_key. cbn [fst snd].
    apply season_row_keys_nodup. exact teams_nodup.
  - exact IH.
  - intros [s' t] H1 H2.
    apply in_map_iff in H1 as [c1 [Hk1 Hc1]].
    apply in_map_iff in H2 as [c2 [Hk2 Hc2]].
    apply in_map_iff in Hc1 as [r [<- _]].
    apply update_cells_season in Hc2.
    unfold cell_key in Hk1, Hk2. cbn [fst snd] in Hk1, Hk2.
    apply Hs. congruence.
Qed.

Section RunAndRead.

Variable scorer : string -> string -> Z.
Variable remote : string -> result page.

Local Abbreviation fetch := (list_fetch_games scorer remote).

(** Writing every cell of some seasons into a complete cache gives a
    complete cache. *)
Lemma write_all_complete (seasons : list Z) (games : cache) :
  complete games = true ->
  Forall (fetched fetch) (update_cells seasons) ->
  complete (write_cells fetch (update_cells seasons) games) = true.
Proof.
  intros Hc Hall. apply complete_iff. intros y t Hy Ht.
  unfold teams in Ht. apply in_map_iff in Ht as [row [<- Hrow]].
  destruct (in_dec Z.eq_dec y seasons) as [Hin|Hout].
  - destruct (write_cells_get_in scorer remote (update_cells seasons) games
                (y, row) Hall) as [v [_ Hv]].
    + unfold update_cells. apply in_prod; assumption.
    + cbn [fst snd] in Hv. rewrite Hv. discriminate.
  - rewrite write_cells_get_out.
    + rewrite complete_iff in Hc. apply Hc.
      * apply keys_write_cells in Hy; [|exact Hall].
        destruct Hy as [Hy|[c [Hc' <-]]]; [exact Hy|].
        exfalso. apply Hout. exact (update_cells_season _ _ Hc').
      * unfold teams. apply in_map. exact Hrow.
    + intros c Hc' Heq. apply Hout. injection Heq as <- _.
      exact (update_cells_season _ _ Hc').
Qed.

Lemma run_cells_disk (l : list (Z * alias_row)) (games : cache)
    (disk disk' : option cache) :
  snd (run_cells scorer remote l games disk)
    = snd (run_cells scorer remote l games disk') /\
  (completed fetch l <> [] ->
   fst (run_cells scorer remote l games disk)
     = fst (run_cells scorer remote l games disk')).
Proof.
  destruct l as [|[s row] l]; cbn [run_cells completed].
  - split; [reflexivity|congruence].
  - unfold fetch_cell. cbn [fst snd].
    destruct (list_fetch_games scorer remote (std row) s);
      split; try reflexivity; congruence.
Qed.

End RunAndRead.

(** X15: when an update runs to its end without an exception, on no cache
    file or on one in which every season has a cell for every team, the
    file it leaves has a cell for every team in every season, so that the
    reader loads it without [KeyError]. *)
Theorem update_then_load :
  forall scorer remote now_year now_month disk rebuild file,
    (forall c, disk = Some c -> complete c = true) ->
    update scorer remote now_year now_month disk rebuild
      = (Some file, None) ->
    complete file = true /\
    load_games (Some file) = Ok (sorted_by_date (flat_cells file)).
Proof.
  intros scorer remote y mo disk rebuild file Hdisk Hup.
  assert (Hc : complete file = true);
    [|split; [exact Hc|exact (load_games_complete file Hc)]].
  unfold update in Hup.
  destruct (update_plan y mo disk rebuild) as [[seasons games]|e] eqn:Hplan;
    [|discriminate Hup].
  assert (Hgames : complete games = true).
  { unfold update_plan in Hplan. destruct disk as [c|], rebuild;
      try (injection Hplan as _ <-; reflexivity).
    destruct (py_max (keys c)); cbn [bind] in Hplan; [|discriminate].
    injection Hplan as _ <-. apply Hdisk. reflexivity. }
  fold (update_cells seasons) in Hup.
  assert (Hall : Forall (fetched (list_fetch_games scorer remote))
                   (update_cells seasons)).
  { apply (run_cells_finished scorer remote _ games disk).
    rewrite Hup. reflexivity. }
  assert (Hfile : Some file
            = match update_cells seasons with
              | [] => disk
              | _ => Some (write_cells (list_fetch_games scorer remote)
                             (update_cells seasons) games)
              end).
  { pose proof (run_cells_app scorer remote (update_cells seasons) []
                  games disk Hall) as Hrun.
    rewrite app_nil_r, Hup in Hrun. cbn [run_cells] in Hrun. congruence. }
  clear Hup. remember (update_cells seasons) as cells eqn:Hcells.
  destruct cells as [|c cells].
  - apply Hdisk. symmetry. exact Hfile.
  - assert (Hw : file = write_cells (list_fetch_games scorer remote)
                          (c :: cells) games) by congruence.
    rewrite Hw, Hcells. apply write_all_complete; [exact Hgames|].
    rewrite <- Hcells. exact Hall.
Qed.

Lemma first_run_finishes :
  update exact_scorer (serve page_2021) 2003 1 None false
    = (Some first_run_file, None).
Proof. vm_compute. reflexivity. Qed.

Lemma no_file_complete :
  forall c : cache, @None cache = Some c -> complete c = true.
Proof. intros c H. discriminate H. Defined.

Lemma update_then_load_witness :
  complete first_run_file = true /\
  load_games (Some first_run_file)
    = Ok (sorted_by_date (flat_cells first_run_file)).
Proof.
  exact (update_then_load exact_scorer (serve page_2021) 2003 1 None false
           first_run_file no_file_complete first_run_finishes).
Defined.

(** X16: when a run that starts from an empty cache (no cache file, or a
    rebuild) is ended by a fetch that raises in the middle of a season,
    after at least one cell of that season was written, the file it leaves
    cannot be read: the season has no cell for the team whose fetch raised,
    and the reader raises [KeyError]. *)
Theorem update_interrupted_unreadable :
  forall scorer remote now_year now_month disk rebuild seasons
         done c rest e,
    update_plan now_year now_month disk rebuild = Ok (seasons, []) ->
    update_cells seasons = (done ++ c :: rest)%list ->
    Forall (fetched (list_fetch_games scorer remote)) done ->
    list_fetch_games scorer remote (std (snd c)) (fst c) = Raise e ->
    (exists c0, In c0 done /\ fst c0 = fst c) ->
    exists file,
      update scorer remote now_year now_month disk rebuild
        = (Some file, Some e) /\
      cache_get (fst c) (std (snd c)) file = None /\
      load_games (Some file) = Raise KeyError.
Proof.
  intros scorer remote y mo disk rebuild seasons done c rest e
    Hplan Hcells Hdone He [c0 [Hc0 Hs0]].
  exists (write_cells (list_fetch_games scorer remote) done []).
  assert (Hnone : cache_get (fst c) (std (snd c))
                    (write_cells (list_fetch_games scorer remote) done [])
                  = None).
  { rewrite write_cells_get_out; [reflexivity|].
    intros c' Hc' Heq.
    pose proof (update_cells_nodup seasons
                  (update_plan_nodup _ _ _ _ _ _ Hplan)) as Hnd.
    rewrite Hcells, map_app in Hnd. cbn [map] in Hnd.
    apply NoDup_remove_2 in Hnd. apply Hnd, in_or_app. left.
    apply in_map_iff. exists c'. split; [exact Heq|exact Hc']. }
  split; [|split; [exact Hnone|]].
  - unfold update. rewrite Hplan. fold (update_cells seasons).
    rewrite Hcells, run_cells_app by exact Hdone.
    destruct c as [s row]. cbn [run_cells]. cbn [fst snd] in He.
    rewrite He. destruct done; [destruct Hc0|reflexivity].
  - apply load_games_incomplete.
    destruct (complete _) eqn:Hc; [|reflexivity]. exfalso.
    rewrite complete_iff in Hc.
    apply (Hc (fst c) (std (snd c))); [| |exact Hnone].
    + apply keys_write_cells; [exact Hdone|]. right. exists c0. auto.
    + assert (Hin : In c (update_cells seasons))
        by (rewrite Hcells; apply in_or_app; right; left; reflexivity).
      destruct c as [s row]. unfold update_cells in Hin.
      apply in_prod_iff in Hin as [_ Hrow].
      unfold teams. apply in_map. exact Hrow.
Qed.

Lemma update_interrupted_unreadable_witness :
  exists file,
    update exact_scorer two_pages_then_down 2003 1 None false
      = (Some file, Some ConnectionError) /\
    cache_get 2003 "BOS" file = None /\
    load_games (Some file) = Raise KeyError.
Proof.
  apply (update_interrupted_unreadable exact_scorer two_pages_then_down
           2003 1 None false [2003] cells_done_2003
           (2003, mkrow "BOS" "bos" "Boston")
           (skipn 3 (update_cells [2003])) ConnectionError).
  - reflexivity.
  - reflexivity.
  - exact cells_done_2003_fetched.
  - reflexivity.
  - exists (2003, mkrow "ATL" "atl" "Atlanta"). split; [|reflexivity].
    left. reflexivity.
Defined.

(** X17: a rebuild does not read the old cache: once its first cell is
    written, the file and the outcome of the run are the same whatever the
    cache file held before, or whether there was one. *)
Theorem update_rebuild_ignores_file :
  forall scorer remote now_year now_month disk disk',
    completed (list_fetch_games scorer remote)
      (update_cells (py_range 2003 (current_season now_year now_month + 1)))
      <> [] ->
    update scorer remote now_year now_month disk true
      = update scorer remote now_year now_month disk' true /\
    update scorer remote now_year now_month disk true
      = update scorer remote now_year now_month None false.
Proof.
  intros scorer remote y mo disk disk' Hp.
  assert (Hplan : forall d, update_plan y mo d true
            = Ok (py_range 2003 (current_season y mo + 1), []))
    by (intros [c|]; reflexivity).
  assert (Hany : forall d d',
            run_cells scorer remote
              (update_cells (py_range 2003 (current_season y mo + 1))) [] d
            = run_cells scorer remote
                (update_cells (py_range 2003 (current_season y mo + 1)))
                [] d').
  { intros d d'.
    destruct (run_cells_disk scorer remote
                (update_cells (py_range 2003 (current_season y mo + 1)))
                [] d d') as [Hs Hf].
    specialize (Hf Hp).
    destruct (run_cells scorer remote _ [] d),
             (run_cells scorer remote _ [] d').
    cbn [fst snd] in *. congruence. }
  unfold update. rewrite !Hplan.
  fold (update_cells (py_range 2003 (current_season y mo + 1))).
  split; [apply Hany|].
  change (update_plan y mo None false)
    with (@Ok (list Z * cache)
            (py_range 2003 (current_season y mo + 1), [])).
  fold (update_cells (py_range 2003 (current_season y mo + 1))).
  apply Hany.
Qed.

Lemma first_run_completes_cells :
  completed (list_fetch_games exact_scorer (serve page_2021))
    (update_cells (py_range 2003 (current_season 2003 1 + 1)))
  <> [].
Proof. vm_compute. discriminate. Defined.

Lemma update_rebuild_ignores_file_witness :
  update exact_scorer (serve page_2021) 2003 1 (Some full_cache) true
    = update exact_scorer (serve page_2021) 2003 1 None true /\
  update exact_scorer (serve page_2021) 2003 1 (Some full_cache) true
    = update exact_scorer (serve page_2021) 2003 1 None false.
Proof.
  exact (update_rebuild_ignores_file exact_scorer (serve page_2021) 2003 1
           (Some full_cache) None first_run_completes_cells).
Defined.

(** ** A dated row and its game *)

Section PlayedRow.

Variable scorer : string -> string -> Z.
Hypothesis scorer_nonneg : forall a b, 0 <= scorer a b.



End PlayedRow.








